(** * Pandora2D configuration checker ([pandora2d/check_json.py])

    A shallow embedding of the configuration validator of Pandora2D and
    the properties of its specification.

    - Python dictionaries are finite maps ([gmap string value]): keys are
      unique and insertion order is irrelevant, as in the data model.
    - Python floats are [spec_float]: the validator only ever asks whether
      a float is NaN or infinite, never computes with one.
    - Exceptions, [sys.exit] and the calls to collaborators are explicit:
      a computation yields the list of events it emitted and an outcome.
    - Mutation is studied on a store of dictionary objects, where
      [update_conf_store] is shown to compute the function [update_conf]
      used everywhere else.
    - The collaborators that are not part of [check_json.py] (the state
      machine, the raster probe, the image and disparity checks of
      pandora) are variables of the section [CheckJson]. *)

From Stdlib Require Import ZArith String List Floats.SpecFloat.
From stdpp Require Import gmap strings list fin_maps.

Open Scope string_scope.
Open Scope list_scope.
Open Scope Z_scope.

(** ** Configuration values *)

#[warnings="-register-all"]
Inductive value :=
  | VBool (b : bool)
  | VInt (z : Z)
  | VFloat (f : spec_float)
  | VStr (s : string)
  | VDict (m : gmap string value).

(** A configuration is a Python [dict] with string keys. *)
Abbreviation conf := (gmap string value).

Inductive pytype := TBool | TInt | TFloat | TStr | TDict.

Definition type_of (v : value) : pytype :=
  match v with
  | VBool _ => TBool
  | VInt _ => TInt
  | VFloat _ => TFloat
  | VStr _ => TStr
  | VDict _ => TDict
  end.

Definition pytype_eqb (a b : pytype) : bool :=
  match a, b with
  | TBool, TBool | TInt, TInt | TFloat, TFloat | TStr, TStr | TDict, TDict => true
  | _, _ => false
  end.

(** [isinstance(v, float)]: the NaN and infinity sentinels are floats. *)
Definition isinstance_float (v : value) : bool :=
  match v with VFloat _ => true | _ => false end.

(** [np.isnan] and [np.isinf], used as schema predicates. A value that
    numpy cannot test makes the predicate fail. *)
Definition np_isnan (v : value) : bool :=
  match v with VFloat S754_nan => true | _ => false end.

Definition np_isinf (v : value) : bool :=
  match v with VFloat (S754_infinity _) => true | _ => false end.

Definition np_nan : value := VFloat S754_nan.

(** Size of a value, the measure behind induction on nested dictionaries. *)
Fixpoint vsize (v : value) : nat :=
  match v with
  | VDict m => S (map_fold (λ _ x acc, (vsize x + acc)%nat) 0%nat m)
  | _ => 1%nat
  end.

(** ** Outcomes, events and the checker monad *)

Inductive exn :=
  | KeyError (key : string)
  | TypeError
  | CheckerError
  | ForeignError (name : string).

Inductive outcome (A : Type) :=
  | Return (a : A)
  | Raise (e : exn)
  | SysExit (code : Z).
Arguments Return {A} a.
Arguments Raise {A} e.
Arguments SysExit {A} code.

Inductive schema_id := PipelineSchema | InputSchema | EstimInputSchema.

Inductive event :=
  | LogError (msg : string)
  | MachineCheck (pipeline : value)
  | Validate (s : schema_id) (cfg : conf)
  | CheckImages (left right : value)
  | CheckDisparities (lo hi : value).

Definition run (A : Type) : Type := list event * outcome A.

Definition ret {A} (a : A) : run A := ([], Return a).

Definition bind {A B} (c : run A) (k : A → run B) : run B :=
  match c with
  | (t, Return a) => let '(t', r) := k a in (t ++ t', r)
  | (t, Raise e) => (t, Raise e)
  | (t, SysExit n) => (t, SysExit n)
  end.

Declare Scope run_scope.
Delimit Scope run_scope with run.
Notation "x <- c ;; k" := (bind c (λ x, k))
  (at level 100, c at next level, right associativity) : run_scope.
Notation "c ;;; k" := (bind c (λ _, k))
  (at level 100, right associativity) : run_scope.
Open Scope run_scope.

Definition lift {A} (o : outcome A) : run A := ([], o).
Definition emit (e : event) : run unit := ([e], Return tt).
Definition raise {A} (e : exn) : run A := ([], Raise e).

(** [logging.error(msg)] and [sys.exit(code)]. *)
Definition logging_error (msg : string) : run unit := emit (LogError msg).
Definition sys_exit {A} (code : Z) : run A := ([], SysExit code).

Definition succeeded {A} (c : run A) : bool :=
  match snd c with Return _ => true | _ => false end.

(** The same exception or exit, seen at two result types. *)
Inductive same_failure {A B} : outcome A → outcome B → Prop :=
  | same_raise e : same_failure (Raise e) (Raise e)
  | same_exit n : same_failure (SysExit n) (SysExit n).

(** ** Python operators used by the checker *)

(** [v[k]] *)
Definition getitem (v : value) (k : string) : outcome value :=
  match v with
  | VDict m =>
      match m !! k with
      | Some x => Return x
      | None => Raise (KeyError k)
      end
  | _ => Raise TypeError
  end.

(** [cfg[k]] on a dictionary *)
Definition conf_getitem (cfg : conf) (k : string) : outcome value :=
  match cfg !! k with
  | Some x => Return x
  | None => Raise (KeyError k)
  end.

(** [k in v]: key membership on a dictionary, substring test on a string,
    [TypeError] on a value that is not a container. *)
Definition py_in (k : string) (v : value) : outcome bool :=
  match v with
  | VDict m => Return (bool_decide (k ∈ dom m))
  | VStr s => Return (match String.index 0 k s with Some _ => true | None => false end)
  | _ => Raise TypeError
  end.

(** [set(ks).issubset(v)]: iterating a dictionary yields its keys,
    iterating a string yields its characters. *)
Definition py_issubset (ks : list string) (v : value) : outcome bool :=
  match v with
  | VDict m => Return (forallb (λ k, bool_decide (k ∈ dom m)) ks)
  | VStr s =>
      Return (forallb (λ k, (Nat.eqb (String.length k) 1)
                            && match String.index 0 k s with Some _ => true | None => false end) ks)
  | _ => Raise TypeError
  end.

(** [v in ["sad", "ssd"]] *)
Definition in_sad_ssd (v : value) : bool :=
  match v with
  | VStr s => bool_decide (s = "sad") || bool_decide (s = "ssd")
  | _ => false
  end.

(** ** ConfigMerger: [update_conf] *)

(** Modelled from the spec: [update_conf] of [pandora.check_json] is not
    part of the sources. Section 4.1: the user configuration is overlaid
    on the defaults; for a key present in both whose two values are
    mappings the merge recurses, otherwise the user value wins if
    present, else the default value is kept. *)
Fixpoint merge_value (d u : value) {struct d} : value :=
  match d, u with
  | VDict dm, VDict um =>
      VDict (merge (λ od ou,
                      match ou with
                      | Some uv =>
                          match od with
                          | Some dv => Some (merge_value dv uv)
                          | None => Some uv
                          end
                      | None => od
                      end) dm um)
  | _, _ => u
  end.

Definition overlay (od ou : option value) : option value :=
  match ou with
  | Some uv =>
      match od with
      | Some dv => Some (merge_value dv uv)
      | None => Some uv
      end
  | None => od
  end.

Definition update_conf (def_cfg user_cfg : conf) : conf :=
  merge overlay def_cfg user_cfg.

(** Modelled from the spec: [get_config_pipeline], [get_config_input]
    and [concat_conf] of [pandora.check_json]. Section 4.5: extract the
    [pipeline] (resp. [input]) subsection; concatenate the validated
    sections into one configuration. *)
Definition get_section (name : string) (user_cfg : conf) : conf :=
  match user_cfg !! name with
  | Some v => {[ name := v ]}
  | None => ∅
  end.

Definition get_config_pipeline (user_cfg : conf) : conf := get_section "pipeline" user_cfg.
Definition get_config_input (user_cfg : conf) : conf := get_section "input" user_cfg.

(** [cfg.update(c)] for every [c] of the list, from an empty dictionary. *)
Definition concat_conf (cfgs : list conf) : conf :=
  fold_left (λ acc c, c ∪ acc) cfgs ∅.

(** ** Schemas *)

(** Modelled from the spec: the schema language of [json_checker]
    (sections 3 and 4.2): an exact type, a conjunction, a disjunction, a
    predicate, or a mapping from keys to constraints. *)
#[warnings="-register-all"]
Inductive schema :=
  | SType (t : pytype)
  | SAnd (cs : list schema)
  | SOr (cs : list schema)
  | SPred (p : value → bool)
  | SDict (fields : list (string * schema)).

(** The four disparity-bound keys of the input section. *)
Definition disp_keys : list string :=
  ["disp_min_col"; "disp_max_col"; "disp_min_row"; "disp_max_row"].

Definition exclusivity_msg : string :=
  "Disparities can't be set in config file with estimation step (and vice versa)".

Definition nodata_msg : string :=
  "nodata_right must be int type with sad or ssd matching_cost_method (ex: 9999)".

(** [default_short_configuration_input] *)
Definition default_input : conf :=
  {[ "nodata_left" := VInt (-9999);
     "nodata_right" := VInt (-9999);
     "disp_min_col" := np_nan;
     "disp_max_col" := np_nan;
     "disp_min_row" := np_nan;
     "disp_max_row" := np_nan ]}.

Definition default_short_configuration_input : conf :=
  {[ "input" := VDict default_input ]}.

Section CheckJson.

(** *** Collaborators *)

(** [rasterio_can_open_mandatory]: whether a path names an openable
    raster. *)
Variable rasterio_can_open_mandatory : string → bool.

(** [check_images(img_left, img_right, None, None)] and
    [check_disparities(disp_min, disp_max, None)] of pandora. A
    collaborator is known by its outcome; the events of a run are the
    calls and the logs of [check_json.py] itself, and what a collaborator
    logs on its own is not recorded. *)
Variable check_images : value → value → outcome unit.
Variable check_disparities : value → value → outcome unit.

(** [pandora2d_machine.check_conf(pipeline)] followed by the read of
    [pandora2d_machine.pipeline_cfg]: the normalized pipeline
    configuration, or the failure of the state machine. *)
Variable machine_check_conf : value → outcome conf.

(** Whether the schema checker tolerates keys that the schema does not
    name; the specification is silent on it. *)
Variable ignore_extra_keys : bool.

(** *** SchemaValidator *)

(** Modelled from the spec: [Checker(schema).validate] of
    [json_checker] (section 4.2). Every key of the schema must be
    present and conform to its constraint; an exact type passes iff the
    runtime type matches; a conjunction iff all parts pass; a
    disjunction iff one does. *)
Fixpoint conforms (s : schema) (v : value) {struct s} : bool :=
  match s with
  | SType t => pytype_eqb (type_of v) t
  | SAnd cs => forallb (λ c, conforms c v) cs
  | SOr cs => existsb (λ c, conforms c v) cs
  | SPred p => p v
  | SDict fields =>
      match v with
      | VDict m =>
          forallb (λ '(k, c),
                     match m !! k with
                     | Some x => conforms c x
                     | None => false
                     end) fields
          && (ignore_extra_keys
              || bool_decide (dom m ⊆ list_to_set (map fst fields)))
      | _ => false
      end
  end.

Definition checker_validate (s : schema) (cfg : conf) : run unit :=
  if conforms s (VDict cfg) then ret tt else raise CheckerError.

Definition can_open (v : value) : bool :=
  match v with
  | VStr path => rasterio_can_open_mandatory path
  | _ => false
  end.

(** A string that names an openable raster. *)
Definition image_ok (v : value) : Prop :=
  ∃ path, v = VStr path ∧ rasterio_can_open_mandatory path = true.

Definition nodata_schema : schema :=
  SOr [SType TInt; SPred np_isnan; SPred np_isinf].

Definition image_schema : schema :=
  SAnd [SType TStr; SPred can_open].

(** [input_configuration_schema] *)
Definition input_configuration_schema : schema :=
  SDict [ ("img_left", image_schema);
          ("img_right", image_schema);
          ("nodata_left", nodata_schema);
          ("nodata_right", nodata_schema);
          ("disp_min_col", SType TInt);
          ("disp_max_col", SType TInt);
          ("disp_min_row", SType TInt);
          ("disp_max_row", SType TInt) ].

(** [estim_input_configuration_schema] *)
Definition estim_input_configuration_schema : schema :=
  SDict [ ("img_left", image_schema);
          ("img_right", image_schema);
          ("nodata_left", nodata_schema);
          ("nodata_right", nodata_schema);
          ("disp_min_col", SPred np_isnan);
          ("disp_max_col", SPred np_isnan);
          ("disp_min_row", SPred np_isnan);
          ("disp_max_row", SPred np_isnan) ].

Definition input_schema_of (flag_estim : bool) : schema :=
  if flag_estim then estim_input_configuration_schema
  else input_configuration_schema.

Definition input_schema_id (flag_estim : bool) : schema_id :=
  if flag_estim then EstimInputSchema else InputSchema.

(** The schemas [{"input": ...}] and [{"pipeline": dict}] handed to
    [Checker]. *)
Definition input_section_schema (flag_estim : bool) : schema :=
  SDict [("input", input_schema_of flag_estim)].

Definition pipeline_section_schema : schema :=
  SDict [("pipeline", SType TDict)].

(** *** [check_input_section] *)
Definition check_input_section (user_cfg : conf) (flag_estim : bool) : run conf :=
  let cfg := update_conf default_short_configuration_input user_cfg in
  let configuration_schema := input_section_schema flag_estim in
  emit (Validate (input_schema_id flag_estim) cfg) ;;;
  checker_validate configuration_schema cfg ;;;
  inp <- lift (conf_getitem cfg "input") ;;
  img_left <- lift (getitem inp "img_left") ;;
  img_right <- lift (getitem inp "img_right") ;;
  emit (CheckImages img_left img_right) ;;;
  lift (check_images img_left img_right) ;;;
  dmin_col <- lift (getitem inp "disp_min_col") ;;
  dmax_col <- lift (getitem inp "disp_max_col") ;;
  emit (CheckDisparities dmin_col dmax_col) ;;;
  lift (check_disparities dmin_col dmax_col) ;;;
  dmin_row <- lift (getitem inp "disp_min_row") ;;
  dmax_row <- lift (getitem inp "disp_max_row") ;;
  emit (CheckDisparities dmin_row dmax_row) ;;;
  lift (check_disparities dmin_row dmax_row) ;;;
  ret cfg.

(** The calls of [check_input_section] that follow the schema
    validation, once the six fields they read are known. *)
Definition input_checks (cfg : conf) (l r a b c d : value) : run conf :=
  emit (CheckImages l r) ;;;
  lift (check_images l r) ;;;
  emit (CheckDisparities a b) ;;;
  lift (check_disparities a b) ;;;
  emit (CheckDisparities c d) ;;;
  lift (check_disparities c d) ;;;
  ret cfg.

(** *** [check_pipeline_section] *)
Definition check_pipeline_section (user_cfg : conf) : run conf :=
  let cfg := update_conf ∅ user_cfg in
  pipeline <- lift (conf_getitem cfg "pipeline") ;;
  emit (MachineCheck pipeline) ;;;
  pipeline_cfg <- lift (machine_check_conf pipeline) ;;
  let cfg := update_conf cfg pipeline_cfg in
  let configuration_schema := pipeline_section_schema in
  emit (Validate PipelineSchema cfg) ;;;
  checker_validate configuration_schema cfg ;;;
  ret cfg.

(** The test of lines 128-130: the right operand of [and] is evaluated
    only when [nodata_right] is a float. *)
Definition nodata_mismatch (cfg_input cfg_pipeline : conf) : run bool :=
  inp <- lift (conf_getitem cfg_input "input") ;;
  nodata_right <- lift (getitem inp "nodata_right") ;;
  if isinstance_float nodata_right then
    pipeline <- lift (conf_getitem cfg_pipeline "pipeline") ;;
    matching_cost <- lift (getitem pipeline "matching_cost") ;;
    method <- lift (getitem matching_cost "matching_cost_method") ;;
    ret (in_sad_ssd method)
  else ret false.

(** *** [check_conf] *)
Definition check_conf (user_cfg : conf) : run conf :=
  pipeline <- lift (conf_getitem user_cfg "pipeline") ;;
  flag_estim <- lift (py_in "estimation" pipeline) ;;
  input <- lift (conf_getitem user_cfg "input") ;;
  all_disp <- lift (py_issubset disp_keys input) ;;
  if negb (xorb flag_estim all_disp) then
    logging_error exclusivity_msg ;;; sys_exit 1
  else
    let user_cfg_pipeline := get_config_pipeline user_cfg in
    cfg_pipeline <- check_pipeline_section user_cfg_pipeline ;;
    let user_cfg_input := get_config_input user_cfg in
    cfg_input <- check_input_section user_cfg_input flag_estim ;;
    mismatch <- nodata_mismatch cfg_input cfg_pipeline ;;
    if mismatch then
      logging_error nodata_msg ;;; sys_exit 1
    else
      ret (concat_conf [cfg_input; cfg_pipeline]).

(** The statements of [check_conf] that follow the exclusivity test
    (lines 120-136). *)
Definition check_sections (user_cfg : conf) (flag_estim : bool) : run conf :=
  let user_cfg_pipeline := get_config_pipeline user_cfg in
  cfg_pipeline <- check_pipeline_section user_cfg_pipeline ;;
  let user_cfg_input := get_config_input user_cfg in
  cfg_input <- check_input_section user_cfg_input flag_estim ;;
  mismatch <- nodata_mismatch cfg_input cfg_pipeline ;;
  if mismatch then
    logging_error nodata_msg ;;; sys_exit 1
  else
    ret (concat_conf [cfg_input; cfg_pipeline]).

End CheckJson.

(** ** The two sides of the exclusivity rule *)

(** An [estimation] step is declared in the pipeline section. *)
Definition has_estimation (pipeline : conf) : bool :=
  bool_decide ("estimation" ∈ dom pipeline).

(** The four disparity bounds are all present in the input section. *)
Definition has_all_disparities (input : conf) : bool :=
  forallb (λ k, bool_decide (k ∈ dom input)) disp_keys.

Definition estimation_declared (user_cfg : conf) : bool :=
  match user_cfg !! "pipeline" with
  | Some (VDict p) => has_estimation p
  | _ => false
  end.

Definition disparities_declared (user_cfg : conf) : bool :=
  match user_cfg !! "input" with
  | Some (VDict i) => has_all_disparities i
  | _ => false
  end.

(** The values that the constraints of the input schemas admit: for
    [nodata_left] and [nodata_right], and for a disparity bound in each
    variant. *)
Definition nodata_ok (v : value) : Prop :=
  (∃ z, v = VInt z) ∨ v = VFloat S754_nan ∨ ∃ sgn, v = VFloat (S754_infinity sgn).

Definition disp_ok (flag_estim : bool) (v : value) : Prop :=
  if flag_estim then v = np_nan else ∃ z, v = VInt z.

Definition input_keys : gset string :=
  list_to_set ["img_left"; "img_right"; "nodata_left"; "nodata_right";
               "disp_min_col"; "disp_max_col"; "disp_min_row"; "disp_max_row"].

(** [Dict[str, dict]]: every section of the user configuration is a
    dictionary. *)
Definition is_mapping (v : value) : bool :=
  match v with VDict _ => true | _ => false end.

Definition sections_are_mappings (user_cfg : conf) : Prop :=
  ∀ k v, user_cfg !! k = Some v → is_mapping v = true.

(** The value found by following a path of keys through nested
    dictionaries. *)
Fixpoint lookup_path (p : list string) (v : value) : option value :=
  match p with
  | [] => Some v
  | k :: p' =>
      match v with
      | VDict m =>
          match m !! k with
          | Some x => lookup_path p' x
          | None => None
          end
      | _ => None
      end
  end.

(** The user configuration omits the key that ends the path: going down
    the nested dictionaries of the user along the path, a key of the path
    is absent. A value of the user that is not a dictionary, met on the
    way, replaces the whole default under its key: the path is not
    omitted then. *)
Fixpoint omits (p : list string) (u : value) : bool :=
  match p with
  | [] => false
  | k :: p' =>
      match u with
      | VDict m =>
          match m !! k with
          | Some x => omits p' x
          | None => true
          end
      | _ => false
      end
  end.


(** ** [update_conf] on a store of dictionaries *)

(** To speak of mutation, dictionaries are objects of a store: a
    dictionary maps its keys to scalars or to references to other
    dictionaries, and a function on dictionaries takes and returns
    references. *)
Inductive hval :=
  | HBool (b : bool)
  | HInt (z : Z)
  | HFloat (f : spec_float)
  | HStr (s : string)
  | HRef (l : nat).

Abbreviation obj := (gmap string hval).
Abbreviation store := (gmap nat obj).

Definition store_m (A : Type) : Type := store → option (A * store).

Definition sret {A} (a : A) : store_m A := λ h, Some (a, h).

Definition sbind {A B} (c : store_m A) (k : A → store_m B) : store_m B :=
  λ h, match c h with
       | Some (a, h') => k a h'
       | None => None
       end.

Declare Scope store_scope.
Delimit Scope store_scope with store.
Notation "x <- c ;; k" := (sbind c (λ x, k))
  (at level 100, c at next level, right associativity) : store_scope.
Notation "c ;;; k" := (sbind c (λ _, k))
  (at level 100, right associativity) : store_scope.

(** [{}]: a new, empty dictionary. *)
Definition new_dict : store_m nat :=
  λ h, let l := fresh (dom h) in Some (l, <[l := ∅]> h).

(** The entries of the dictionary at [l]. *)
Definition read (l : nat) : store_m obj :=
  λ h, match h !! l with
       | Some o => Some (o, h)
       | None => None
       end.

(** [l[k] = v]: the dictionary at [l] is updated in place. *)
Definition setitem (l : nat) (k : string) (v : hval) : store_m unit :=
  λ h, match h !! l with
       | Some o => Some (tt, <[l := <[k := v]> o]> h)
       | None => None
       end.

(** [for x in xs: f(x)] *)
Fixpoint for_each {A} (xs : list A) (f : A → store_m unit) : store_m unit :=
  match xs with
  | [] => sret tt
  | x :: xs' => (f x ;;; for_each xs' f)%store
  end.

(** [copy.deepcopy(l)]. The fuel bounds the depth of nesting. *)
Fixpoint deepcopy (fuel : nat) (l : nat) : store_m nat :=
  match fuel with
  | O => λ _, None
  | S n =>
      (o <- read l ;;
       c <- new_dict ;;
       for_each (map_to_list o) (λ '(k, v),
         match v with
         | HRef l' => c' <- deepcopy n l' ;; setitem c k (HRef c')
         | _ => setitem c k v
         end) ;;;
       sret c)%store
  end.

(** Modelled from the spec: [update_conf] of [pandora.check_json], on
    the store. Section 4.1: the result is a new structure, a copy of the
    defaults on which the user configuration is overlaid; where both hold
    a mapping under a key the merge recurses, otherwise the user value
    wins; neither argument is written to. *)
Fixpoint update_conf_store (fuel : nat) (def_cfg user_cfg : nat) : store_m nat :=
  match fuel with
  | O => λ _, None
  | S n =>
      (config <- deepcopy n def_cfg ;;
       user <- read user_cfg ;;
       for_each (map_to_list user) (λ '(key, value),
         match value with
         | HRef u =>
             cur <- read config ;;
             match cur !! key with
             | Some (HRef d) =>
                 r <- update_conf_store n d u ;; setitem config key (HRef r)
             | _ =>
                 r <- deepcopy n u ;; setitem config key (HRef r)
             end
         | _ => setitem config key value
         end) ;;;
       sret config)%store
  end.

(** The value that the store holds at a reference. *)
Definition reify_hval (reify : nat → option value) (v : hval) : option value :=
  match v with
  | HBool b => Some (VBool b)
  | HInt z => Some (VInt z)
  | HFloat f => Some (VFloat f)
  | HStr s => Some (VStr s)
  | HRef l => reify l
  end.

Fixpoint reify (fuel : nat) (h : store) (l : nat) : option value :=
  match fuel with
  | O => None
  | S n =>
      match h !! l with
      | Some o =>
          if bool_decide (map_Forall (λ _ v, is_Some (reify_hval (reify n h) v)) o)
          then Some (VDict (omap (reify_hval (reify n h)) o))
          else None
      | None => None
      end
  end.

(** Every object of [h] is still there in [h'], unchanged. *)
Definition preserved (h h' : store) : Prop :=
  ∀ l o, h !! l = Some o → h' !! l = Some o.

(** The objects of [h'] that are not in [h] refer to no object of [h]. *)
Definition separate (h h' : store) : Prop :=
  ∀ l o k l', h !! l = None → h' !! l = Some o → o !! k = Some (HRef l') →
              h !! l' = None.

(** The call returned the new object [r] and left the store [h'], in
    which every object of [h] is unchanged and the new objects refer to
    new objects only. *)
Definition allocates (h : store) (r : nat) (h' : store) : Prop :=
  preserved h h' ∧ h !! r = None ∧ is_Some (h' !! r) ∧ separate h h'.

(** The invariant of the two loops: they write to the object [c], which
    is not an object of the initial store [h]. *)
Definition building (h : store) (c : nat) (hc : store) : Prop :=
  preserved h hc ∧ is_Some (hc !! c) ∧ separate h hc.

(** The value of an entry of a dictionary object. *)
Definition reify_entry (fuel : nat) (h : store) (v : hval) : option value :=
  reify_hval (reify fuel h) v.

(** The object [c] holds the value [m], and its entries are read
    without going through [c]. *)
Definition holds (n : nat) (c : nat) (hc : store) (m : conf) : Prop :=
  ∃ oc, hc !! c = Some oc
        ∧ (∀ k hv, oc !! k = Some hv → is_Some (reify_entry n (delete c hc) hv))
        ∧ omap (reify_entry n (delete c hc)) oc = m.

(** The entries written by a loop over the association list [xs], on top
    of the entries [m] that the object held before. *)
Definition written (xs : list (string * hval)) (f : hval → option value)
    (m m' : conf) : Prop :=
  ∀ j, m' !! j = match (list_to_map xs : gmap string hval) !! j with
                 | Some hv => f hv
                 | None => m !! j
                 end.

(** With fuel [N], [deepcopy] returns a copy of every configuration of
    depth [n]. *)
Definition copies (n N : nat) : Prop :=
  ∀ l hx v, reify n hx l = Some v →
            ∃ r h', deepcopy N l hx = Some (r, h') ∧ reify n h' r = Some v.

(** With fuel [N], [update_conf_store] returns the merge of every two
    configurations of depth [n]. *)
Definition merges (n N : nat) : Prop :=
  ∀ d u h (D U : conf),
    reify n h d = Some (VDict D) → reify n h u = Some (VDict U) →
    ∃ r h', update_conf_store N d u h = Some (r, h')
            ∧ reify n h' r = Some (VDict (update_conf D U)).

(** The entries of the association list [xs] overlaid on the entries
    [m]. *)
Definition overlaid (xs : list (string * hval)) (f : hval → option value)
    (m m' : conf) : Prop :=
  ∀ j, m' !! j = overlay (m !! j) ((list_to_map xs : gmap string hval) !! j ≫= f).


(** A Python number ([bool], [int] or [float]): neither a container for
    [in] nor an iterable for [issubset]. *)
Definition is_number (v : value) : bool :=
  match v with
  | VBool _ | VInt _ | VFloat _ => true
  | _ => false
  end.

(** The eight fields that [check_input_section] reads in the merged
    input section. *)
Record input_fields := {
  f_img_left : value;
  f_img_right : value;
  f_nodata_left : value;
  f_nodata_right : value;
  f_disp_min_col : value;
  f_disp_max_col : value;
  f_disp_min_row : value;
  f_disp_max_row : value;
}.

Definition has_fields (inp : conf) (f : input_fields) : Prop :=
  inp !! "img_left" = Some (f_img_left f)
  ∧ inp !! "img_right" = Some (f_img_right f)
  ∧ inp !! "nodata_left" = Some (f_nodata_left f)
  ∧ inp !! "nodata_right" = Some (f_nodata_right f)
  ∧ inp !! "disp_min_col" = Some (f_disp_min_col f)
  ∧ inp !! "disp_max_col" = Some (f_disp_max_col f)
  ∧ inp !! "disp_min_row" = Some (f_disp_min_row f)
  ∧ inp !! "disp_max_row" = Some (f_disp_max_row f).

(** The events of a complete run of [check_input_section]. *)
Definition input_events (id : schema_id) (cfg : conf) (f : input_fields) : list event :=
  [ Validate id cfg;
    CheckImages (f_img_left f) (f_img_right f);
    CheckDisparities (f_disp_min_col f) (f_disp_max_col f);
    CheckDisparities (f_disp_min_row f) (f_disp_max_row f) ].

(** What the input schema of a variant asks of the eight fields. *)
Definition valid_fields (can_open : string → bool) (flag_estim : bool)
    (f : input_fields) : Prop :=
  image_ok can_open (f_img_left f) ∧ image_ok can_open (f_img_right f)
  ∧ nodata_ok (f_nodata_left f) ∧ nodata_ok (f_nodata_right f)
  ∧ disp_ok flag_estim (f_disp_min_col f) ∧ disp_ok flag_estim (f_disp_max_col f)
  ∧ disp_ok flag_estim (f_disp_min_row f) ∧ disp_ok flag_estim (f_disp_max_row f).

(** ** Sample collaborators and configurations *)

(** A raster probe that opens every path, image and disparity checks that
    pass, a state machine that returns the pipeline it is given, and one
    that rejects every pipeline. *)
Definition open_all : string → bool := λ _, true.
Definition checks_pass : value → value → outcome unit := λ _ _, Return tt.
Definition echo_machine : value → outcome conf :=
  λ pipeline, Return {[ "pipeline" := pipeline ]}.
Definition reject_machine : value → outcome conf :=
  λ _, Raise (ForeignError "MachineError").

(** [check_conf] with the sample collaborators and a strict schema
    checker. *)
Definition check_conf_sample : conf → run conf :=
  check_conf open_all checks_pass checks_pass echo_machine false.

Definition input_disp : conf :=
  {[ "img_left" := VStr "left.tif";
     "img_right" := VStr "right.tif";
     "disp_min_col" := VInt (-2);
     "disp_max_col" := VInt 2;
     "disp_min_row" := VInt (-2);
     "disp_max_row" := VInt 2 ]}.

Definition input_two_bounds : conf :=
  {[ "img_left" := VStr "left.tif";
     "img_right" := VStr "right.tif";
     "disp_min_col" := VInt (-2);
     "disp_max_col" := VInt 2 ]}.

Definition pipeline_sad : conf :=
  {[ "matching_cost" := VDict {[ "matching_cost_method" := VStr "sad" ]} ]}.

Definition pipeline_estimation : conf :=
  <[ "estimation" := VDict {[ "estimation_method" := VStr "phase_cross_correlation" ]} ]>
    pipeline_sad.

Definition pipeline_no_matching_cost : conf :=
  {[ "disparity" := VDict {[ "disparity_method" := VStr "wta" ]} ]}.

Definition make_cfg (input pipeline : conf) : conf :=
  {[ "input" := VDict input; "pipeline" := VDict pipeline ]}.

(** [9999.0] *)
Definition float_9999 : spec_float := S754_finite false 9999 0.

(** Scenario A: explicit bounds, no estimation step. *)
Definition cfg_bounds : conf := make_cfg input_disp pipeline_sad.

(** Scenario B: an estimation step and the four bounds. *)
Definition cfg_both : conf := make_cfg input_disp pipeline_estimation.

(** Scenario C: no estimation step and two of the four bounds. *)
Definition cfg_two_bounds : conf := make_cfg input_two_bounds pipeline_sad.

(** [nodata_right] set to NaN, to [9999.0] and to [9999]. *)
Definition input_nan : conf := <["nodata_right" := np_nan]> input_disp.
Definition input_float : conf := <["nodata_right" := VFloat float_9999]> input_disp.
Definition input_int : conf := <["nodata_right" := VInt 9999]> input_disp.

Definition cfg_nan : conf := make_cfg input_nan pipeline_sad.
Definition cfg_float : conf := make_cfg input_float pipeline_sad.
Definition cfg_nan_no_matching_cost : conf :=
  make_cfg input_nan pipeline_no_matching_cost.

(** [nodata_right] set to [9999.0] with a pipeline that has no
    [matching_cost] step. *)
Definition cfg_float_no_matching_cost : conf :=
  make_cfg input_float pipeline_no_matching_cost.



Definition input_left_only : conf := {[ "img_left" := VStr "left.tif" ]}.


(** A user configuration for [check_input_section]: the input section
    is nested under its key, as the defaults are. *)
Definition user_two_bounds : conf := {[ "input" := VDict input_two_bounds ]}.

(** The configurations that the two section checkers return on the
    samples. *)
Definition merged (input : conf) : conf :=
  update_conf default_short_configuration_input {[ "input" := VDict input ]}.

Definition validated (pipeline : conf) : conf := {[ "pipeline" := VDict pipeline ]}.

(** A store with a default and a user configuration, each with a nested
    input section. *)
Definition sample_store : store :=
  {[ 0%nat := {[ "input" := HRef 1%nat ]};
     1%nat := {[ "nodata_left" := HInt (-9999); "disp_min_col" := HFloat S754_nan ]};
     2%nat := {[ "input" := HRef 3%nat ]};
     3%nat := {[ "img_left" := HStr "left.tif"; "disp_min_col" := HInt (-2) ]} ]}.

(** The store left by merging the user configuration at [2] over the
    defaults at [0]. *)
Definition sample_store_merged : store :=
  Eval vm_compute in
    match update_conf_store 5 0 2 sample_store with
    | Some (_, h') => h'
    | None => ∅
    end.

(** Further samples: a configuration with an [output] section, an
    estimation pipeline whose input section gives the two images only,
    a matching cost step with the method [zncc], one without a method,
    and a [pipeline] entry that is a number. *)
Definition cfg_bounds_output : conf :=
  <["output" := VDict {[ "path" := VStr "./out" ]}]> cfg_bounds.

Definition input_images : conf :=
  {[ "img_left" := VStr "left.tif"; "img_right" := VStr "right.tif" ]}.

Definition cfg_estimation : conf := make_cfg input_images pipeline_estimation.

Definition pipeline_zncc : conf :=
  {[ "matching_cost" := VDict {[ "matching_cost_method" := VStr "zncc" ]} ]}.

Definition pipeline_no_method : conf :=
  {[ "matching_cost" := VDict {[ "window_size" := VInt 5 ]} ]}.

Definition cfg_nan_zncc : conf := make_cfg input_nan pipeline_zncc.
Definition cfg_nan_no_method : conf := make_cfg input_nan pipeline_no_method.

Definition cfg_number : conf :=
  {[ "input" := VDict input_disp; "pipeline" := VInt 0 ]}.

(** The fields of [input_disp] completed by the defaults. *)
Definition fields_disp : input_fields :=
  {| f_img_left := VStr "left.tif";
     f_img_right := VStr "right.tif";
     f_nodata_left := VInt (-9999);
     f_nodata_right := VInt (-9999);
     f_disp_min_col := VInt (-2);
     f_disp_max_col := VInt 2;
     f_disp_min_row := VInt (-2);
     f_disp_max_row := VInt 2 |}.

(** * Properties *)

(** ** Induction on nested dictionaries *)

Lemma vsize_lookup (m : conf) k v :
  m !! k = Some v → (vsize v < vsize (VDict m))%nat.
Proof.
  intros Hk. simpl.
  rewrite (map_fold_delete_L _ _ k v m); [lia | | done].
  intros; lia.
Qed.

Lemma value_nested_ind (P : value → Prop) :
  (∀ b, P (VBool b)) →
  (∀ z, P (VInt z)) →
  (∀ f, P (VFloat f)) →
  (∀ s, P (VStr s)) →
  (∀ m : conf, (∀ k v, m !! k = Some v → P v) → P (VDict m)) →
  ∀ v, P v.
Proof.
  intros Hb Hz Hf Hs Hd v.
  remember (vsize v) as n eqn:Hn. revert v Hn.
  induction n as [n IH] using lt_wf_ind. intros v ->.
  destruct v as [| | | |m]; auto.
  apply Hd. intros k v Hk.
  apply (IH (vsize v)); [by eapply vsize_lookup | done].
Qed.

(** ** The merge of configurations *)

Lemma merge_value_dict (d u : conf) :
  merge_value (VDict d) (VDict u) = VDict (update_conf d u).
Proof. reflexivity. Qed.

Lemma merge_value_leaf_r d u : is_mapping u = false → merge_value d u = u.
Proof. by destruct d, u. Qed.

Lemma merge_value_leaf_l d u : is_mapping d = false → merge_value d u = u.
Proof. by destruct d, u. Qed.

Lemma lookup_update_conf (d u : conf) k :
  update_conf d u !! k = overlay (d !! k) (u !! k).
Proof.
  unfold update_conf. rewrite lookup_merge.
  by destruct (d !! k), (u !! k).
Qed.

Lemma lookup_update_conf_user (d u : conf) k uv :
  u !! k = Some uv →
  update_conf d u !! k
  = Some (match d !! k with Some dv => merge_value dv uv | None => uv end).
Proof. intros Hu. rewrite lookup_update_conf, Hu. by destruct (d !! k). Qed.

Lemma lookup_update_conf_default (d u : conf) k :
  u !! k = None → update_conf d u !! k = d !! k.
Proof. intros Hu. by rewrite lookup_update_conf, Hu. Qed.

Lemma dom_update_conf (d u : conf) :
  dom (update_conf d u) = dom d ∪ dom u.
Proof.
  apply set_eq. intros k.
  rewrite elem_of_union, !elem_of_dom, lookup_update_conf.
  destruct (d !! k) as [dv|], (u !! k) as [uv|]; simpl;
    split; intros H; eauto; destruct H as [[? H]|[? H]]; by eauto.
Qed.

Lemma update_conf_empty_l (u : conf) : update_conf ∅ u = u.
Proof.
  apply map_eq. intros k.
  rewrite lookup_update_conf, lookup_empty. by destruct (u !! k).
Qed.

Lemma update_conf_empty_r (d : conf) : update_conf d ∅ = d.
Proof.
  apply map_eq. intros k.
  rewrite lookup_update_conf, lookup_empty. by destruct (d !! k).
Qed.

(** A leaf of the user configuration is found unchanged, under the same
    path, in the merged configuration. *)
Lemma lookup_path_merge_leaf p : ∀ d u x,
  lookup_path p u = Some x → is_mapping x = false →
  lookup_path p (merge_value d u) = Some x.
Proof.
  induction p as [|k p IH]; intros d u x Hp Hx; simpl in *.
  - injection Hp as ->. by rewrite merge_value_leaf_r.
  - destruct u as [| | | |um]; try done.
    destruct (um !! k) as [uv|] eqn:Hk; [|done].
    destruct d as [| | | |dm]; simpl; try by rewrite Hk.
    fold (update_conf dm um). rewrite (lookup_update_conf_user _ _ _ uv Hk).
    destruct (dm !! k) as [dv|]; [by apply IH|done].
Qed.

(** No path of the user configuration is lost. *)
Lemma lookup_path_merge_some p : ∀ d u x,
  lookup_path p u = Some x → is_Some (lookup_path p (merge_value d u)).
Proof.
  induction p as [|k p IH]; intros d u x Hp; simpl in *; [by eexists|].
  destruct u as [| | | |um]; try done.
  destruct (um !! k) as [uv|] eqn:Hk; [|done].
  destruct d as [| | | |dm]; simpl; try (rewrite Hk; by eexists).
  fold (update_conf dm um). rewrite (lookup_update_conf_user _ _ _ uv Hk).
  destruct (dm !! k) as [dv|]; [by eapply IH|by eexists].
Qed.

(** A default, at any depth, whose key the user configuration omits is
    found unchanged under the same path. *)
Lemma lookup_path_merge_default p : ∀ d u x,
  lookup_path p d = Some x → omits p u = true →
  lookup_path p (merge_value d u) = Some x.
Proof.
  induction p as [|k p IH]; intros d u x Hp Ho; simpl in *; [done|].
  destruct d as [| | | |dm]; try done.
  destruct (dm !! k) as [dv|] eqn:Hd; [|done].
  destruct u as [| | | |um]; try done.
  rewrite merge_value_dict. simpl. rewrite lookup_update_conf, Hd.
  destruct (um !! k) as [uv|] eqn:Hu; simpl; [by apply IH|done].
Qed.

Lemma merge_value_absorb u : ∀ d,
  merge_value (merge_value d u) u = merge_value d u.
Proof.
  induction u as [b|z|f|s|um IH] using value_nested_ind; intros d;
    try (by destruct d).
  assert (Hself : ∀ k v, um !! k = Some v → merge_value v v = v).
  { intros k v Hk. specialize (IH k v Hk (VBool true)).
    by rewrite !(merge_value_leaf_l (VBool true)) in IH. }
  destruct d as [| | | |dm]; simpl; fold (update_conf um um);
    try (f_equal; apply map_eq; intros k; rewrite lookup_update_conf;
         destruct (um !! k) as [v|] eqn:Hk; simpl; [|done];
         f_equal; by eapply Hself).
  fold (update_conf dm um). fold (update_conf (update_conf dm um) um).
  f_equal. apply map_eq. intros k.
  rewrite !lookup_update_conf.
  destruct (dm !! k) as [dv|], (um !! k) as [uv|] eqn:Hk; simpl; try done;
    f_equal; [by eapply IH | by eapply Hself].
Qed.

(** ** The store: [update_conf] writes to new objects only *)

Lemma preserved_None (h h' : store) l :
  preserved h h' → h' !! l = None → h !! l = None.
Proof.
  intros Hp Hn. destruct (h !! l) as [o|] eqn:Hl; [|done].
  apply Hp in Hl. congruence.
Qed.

Lemma preserved_trans (h1 h2 h3 : store) :
  preserved h1 h2 → preserved h2 h3 → preserved h1 h3.
Proof. intros H12 H23 l o Hl. by apply H23, H12. Qed.

Lemma separate_trans (h1 h2 h3 : store) :
  preserved h1 h2 → separate h1 h2 → preserved h2 h3 → separate h2 h3 →
  separate h1 h3.
Proof.
  intros P12 S12 P23 S23 l o k l' Hl Ho Hk.
  destruct (h2 !! l) as [o2|] eqn:H2.
  - pose proof (P23 _ _ H2) as H3. rewrite Ho in H3. injection H3 as ->.
    by eapply S12.
  - eapply preserved_None; [exact P12|]. by eapply S23.
Qed.

Lemma for_each_invariant {A} (I : store → Prop) (f : A → store_m unit) xs :
  (∀ x h h', x ∈ xs → I h → f x h = Some (tt, h') → I h') →
  ∀ h h', I h → for_each xs f h = Some (tt, h') → I h'.
Proof.
  induction xs as [|x xs IH]; intros Hf h h' HI Hrun; simpl in Hrun.
  - by injection Hrun as <-.
  - unfold sbind in Hrun. destruct (f x h) as [[[] h1]|] eqn:Hx; [|done].
    eapply IH; [|by eapply Hf; [left| |]|exact Hrun].
    intros y h2 h3 Hy. apply Hf. by right.
Qed.

Lemma setitem_building h c hc k v hc' :
  h !! c = None → building h c hc →
  (∀ l, v = HRef l → h !! l = None) →
  setitem c k v hc = Some (tt, hc') →
  building h c hc'.
Proof.
  intros Hc (Hp & [oc Hoc] & Hs) Hv Hset. unfold setitem in Hset.
  rewrite Hoc in Hset. injection Hset as <-.
  split; [|split].
  - intros l o Hl. rewrite lookup_insert_ne; [by apply Hp|congruence].
  - rewrite lookup_insert_eq. by eexists.
  - intros l o k' l' Hl Ho Hk.
    destruct (decide (c = l)) as [<-|Hne].
    + rewrite lookup_insert_eq in Ho. injection Ho as <-.
      destruct (decide (k = k')) as [<-|Hk'].
      * rewrite lookup_insert_eq in Hk. injection Hk as ->. by apply Hv.
      * rewrite lookup_insert_ne in Hk by done. by eapply Hs.
    + rewrite lookup_insert_ne in Ho by done. by eapply Hs.
Qed.

Lemma call_setitem_building h c hc (call : store_m nat) k hc' :
  h !! c = None → building h c hc →
  (∀ r hc1, call hc = Some (r, hc1) → allocates hc r hc1) →
  sbind call (λ r, setitem c k (HRef r)) hc = Some (tt, hc') →
  building h c hc'.
Proof.
  intros Hc (Hp & [oc Hoc] & Hs) Hcall Hrun. unfold sbind in Hrun.
  destruct (call hc) as [[r hc1]|] eqn:Hr; [|done].
  destruct (Hcall _ _ eq_refl) as (Hp1 & Hr1 & _ & Hs1).
  eapply (setitem_building h c hc1 k (HRef r));
    [exact Hc| |intros l [= <-]|exact Hrun].
  - split; [by eapply preserved_trans|split].
    + exists oc. by apply Hp1.
    + by eapply separate_trans.
  - by eapply preserved_None.
Qed.

Lemma new_dict_building h c h' :
  new_dict h = Some (c, h') → h !! c = None ∧ building h c h'.
Proof.
  unfold new_dict. intros [= <- <-].
  assert (Hf : h !! fresh (dom h) = None).
  { apply not_elem_of_dom, is_fresh. }
  split; [done|]. split; [|split].
  - intros l o Hl. rewrite lookup_insert_ne; [done|congruence].
  - rewrite lookup_insert_eq. by eexists.
  - intros l o k l' Hl Ho Hk.
    destruct (decide (fresh (dom h) = l)) as [<-|Hne].
    + rewrite lookup_insert_eq in Ho. injection Ho as <-.
      by rewrite lookup_empty in Hk.
    + rewrite lookup_insert_ne in Ho by done. congruence.
Qed.

Lemma building_allocates h c hc :
  h !! c = None → building h c hc → allocates h c hc.
Proof. intros Hc (Hp & Hs & Hsep). done. Qed.

Lemma deepcopy_allocates fuel : ∀ l h r h',
  deepcopy fuel l h = Some (r, h') → allocates h r h'.
Proof.
  induction fuel as [|n IH]; intros l h r h' Hrun; [done|].
  simpl in Hrun. unfold sbind at 1, read in Hrun.
  destruct (h !! l) as [o|]; [|done].
  unfold sbind at 1 in Hrun.
  destruct (new_dict h) as [[c h1]|] eqn:Hnew; [|done].
  apply new_dict_building in Hnew as [Hc Hb].
  unfold sbind in Hrun at 1.
  destruct (for_each _ _ h1) as [[[] h2]|] eqn:Hloop; [|done].
  injection Hrun as <- <-.
  apply building_allocates; [done|].
  revert Hloop. apply for_each_invariant; [|done].
  intros [k v] hc hc' _ Hbc Hstep.
  destruct v as [b|z|f|s|l'];
    try (by eapply setitem_building; [exact Hc|exact Hbc| |exact Hstep]).
  eapply call_setitem_building; [exact Hc|exact Hbc| |exact Hstep].
  intros r1 hc1. apply IH.
Qed.

Lemma update_conf_store_allocates fuel : ∀ d u h r h',
  update_conf_store fuel d u h = Some (r, h') → allocates h r h'.
Proof.
  induction fuel as [|n IH]; intros d u h r h' Hrun; [done|].
  simpl in Hrun. unfold sbind at 1 in Hrun.
  destruct (deepcopy n d h) as [[c h1]|] eqn:Hcopy; [|done].
  apply deepcopy_allocates in Hcopy as (Hp & Hc & Hsome & Hsep).
  unfold sbind at 1, read in Hrun.
  destruct (h1 !! u) as [user|]; [|done].
  unfold sbind in Hrun at 1.
  destruct (for_each _ _ h1) as [[[] h2]|] eqn:Hloop; [|done].
  injection Hrun as <- <-.
  apply building_allocates; [done|].
  revert Hloop. apply for_each_invariant; [|done].
  intros [k v] hc hc' _ Hbc Hstep.
  destruct v as [b|z|f|s|l'];
    try (by eapply setitem_building; [exact Hc|exact Hbc| |exact Hstep]).
  unfold sbind at 1, read in Hstep.
  destruct Hbc as (Hpc & [cur Hcur] & Hsc). rewrite Hcur in Hstep.
  assert (Hbc : building h c hc) by (split; [done|split; [by eexists|done]]).
  destruct (cur !! k) as [[| | | |dl]|];
    (eapply call_setitem_building; [exact Hc|exact Hbc| |exact Hstep]);
    intros r1 hc1; first [apply IH | apply deepcopy_allocates].
Qed.

(** ** The store: [update_conf_store] computes [update_conf] *)

Lemma reify_S n h l v :
  reify (S n) h l = Some v ↔
    ∃ o, h !! l = Some o
         ∧ (∀ k hv, o !! k = Some hv → is_Some (reify_entry n h hv))
         ∧ v = VDict (omap (reify_entry n h) o).
Proof.
  simpl. destruct (h !! l) as [o|]; cycle 1.
  { split; [done|]. by intros (o & ? & _). }
  case_bool_decide as Hall.
  - split.
    + intros [= <-]. by exists o.
    + intros (o' & [= <-] & _ & ->). done.
  - split; [done|]. intros (o' & [= <-] & Hall' & _). by destruct Hall.
Qed.

Lemma reify_entry_preserved (h h' : store) n hv v :
  (∀ l v, reify n h l = Some v → reify n h' l = Some v) →
  reify_entry n h hv = Some v → reify_entry n h' hv = Some v.
Proof. intros IH. destruct hv; simpl; auto. Qed.

Lemma reify_mono (h h' : store) :
  preserved h h' → ∀ n l v, reify n h l = Some v → reify n h' l = Some v.
Proof.
  intros Hp n. induction n as [|n IH]; intros l v; [done|].
  rewrite !reify_S. intros (o & Hl & Hall & ->).
  exists o. split; [by apply Hp|].
  assert (Hent : ∀ k hv, o !! k = Some hv →
            reify_entry n h' hv = reify_entry n h hv).
  { intros k hv Hk. destruct (Hall k hv Hk) as [x Hx].
    rewrite Hx. by eapply reify_entry_preserved. }
  split.
  - intros k hv Hk. rewrite (Hent k hv Hk). by eapply Hall.
  - f_equal. apply map_eq. intros k. rewrite !lookup_omap.
    destruct (o !! k) as [hv|] eqn:Hk; [simpl|done]. symmetry. by eapply Hent.
Qed.

Lemma reify_is_dict n h l v : reify n h l = Some v → ∃ m, v = VDict m.
Proof.
  destruct n as [|n]; [done|]. rewrite reify_S. intros (o & _ & _ & ->). by eexists.
Qed.

Lemma preserved_delete (h : store) c : preserved (delete c h) h.
Proof. intros l o. rewrite lookup_delete_Some. by intros [_ ?]. Qed.

Lemma holds_reify n c hc m : holds n c hc m → reify (S n) hc c = Some (VDict m).
Proof.
  intros (oc & Hc & Hall & <-). apply reify_S. exists oc. split; [done|].
  assert (Hent : ∀ k hv, oc !! k = Some hv →
            reify_entry n hc hv = reify_entry n (delete c hc) hv).
  { intros k hv Hk. destruct (Hall k hv Hk) as [x Hx]. rewrite Hx.
    eapply reify_entry_preserved; [|exact Hx].
    apply reify_mono, preserved_delete. }
  split.
  - intros k hv Hk. rewrite (Hent k hv Hk). by eapply Hall.
  - f_equal. apply map_eq. intros k. rewrite !lookup_omap.
    destruct (oc !! k) as [hv|] eqn:Hk; [simpl|done]. symmetry. by eapply Hent.
Qed.

(** An object made by a call that started when [c] existed is read
    without going through [c]. *)
Lemma reify_avoids (base h1 : store) c :
  separate base h1 → is_Some (base !! c) →
  ∀ n r x, base !! r = None → reify n h1 r = Some x →
           reify n (delete c h1) r = Some x.
Proof.
  intros Hsep [oc Hc] n. induction n as [|n IH]; intros r x Hr; [done|].
  rewrite !reify_S. intros (o & Ho & Hall & ->). exists o.
  assert (r ≠ c) by congruence.
  split; [by rewrite lookup_delete_ne|].
  assert (Hent : ∀ k hv, o !! k = Some hv →
            reify_entry n (delete c h1) hv = reify_entry n h1 hv).
  { intros k hv Hk. destruct (Hall k hv Hk) as [y Hy]. rewrite Hy.
    destruct hv as [| | | |l']; try done. simpl in *.
    apply IH; [|done]. by eapply Hsep. }
  split.
  - intros k hv Hk. rewrite (Hent k hv Hk). by eapply Hall.
  - f_equal. apply map_eq. intros k. rewrite !lookup_omap.
    destruct (o !! k) as [hv|] eqn:Hk; [simpl|done]. symmetry. by eapply Hent.
Qed.

Lemma holds_new_dict h c h' n :
  new_dict h = Some (c, h') → holds n c h' ∅.
Proof.
  unfold new_dict. intros [= <- <-]. exists ∅.
  rewrite lookup_insert_eq. split; [done|]. split; [|by rewrite omap_empty].
  intros k hv. by rewrite lookup_empty.
Qed.

(** Writing the entry [k] of [c], with a scalar or with a reference to
    an object that is read without going through [c]. *)
Lemma holds_setitem n c hc1 m k hv x :
  holds n c hc1 m →
  reify_entry n (delete c hc1) hv = Some x →
  ∃ hc2, setitem c k hv hc1 = Some (tt, hc2) ∧ holds n c hc2 (<[k := x]> m).
Proof.
  intros (oc & Hc & Hall & <-) Hx. unfold setitem. rewrite Hc.
  eexists. split; [done|].
  exists (<[k := hv]> oc). rewrite lookup_insert_eq. split; [done|].
  rewrite delete_insert_eq.
  split.
  - intros j hv'. rewrite lookup_insert_Some.
    intros [[_ <-]|[_ Hj]]; [by eexists|by eapply Hall].
  - by apply omap_insert_Some.
Qed.

(** The invariant survives a call that allocates. *)
Lemma holds_preserved n c hc hc1 m :
  preserved hc hc1 → holds n c hc m → holds n c hc1 m.
Proof.
  intros Hp (oc & Hc & Hall & <-). exists oc. split; [by apply Hp|].
  assert (Hpd : preserved (delete c hc) (delete c hc1)).
  { intros l o. rewrite !lookup_delete_Some. intros [? ?]. split; [done|by apply Hp]. }
  assert (Hent : ∀ k hv, oc !! k = Some hv →
            reify_entry n (delete c hc1) hv = reify_entry n (delete c hc) hv).
  { intros k hv Hk. destruct (Hall k hv Hk) as [x Hx]. rewrite Hx.
    eapply reify_entry_preserved; [|exact Hx]. by apply reify_mono. }
  split.
  - intros k hv Hk. rewrite (Hent k hv Hk). by eapply Hall.
  - apply map_eq. intros k. rewrite !lookup_omap.
    destruct (oc !! k) as [hv|] eqn:Hk; [simpl|done]. by eapply Hent.
Qed.

Lemma reify_entry_scalar n (h h' : store) hv x :
  (∀ l, hv ≠ HRef l) → reify_entry n h hv = Some x → reify_entry n h' hv = Some x.
Proof. intros Hs. destruct hv as [| | | |l]; try done. by destruct (Hs l). Qed.

Lemma call_setitem_holds n h c hc m (call : store_m nat) k x :
  h !! c = None → building h c hc → holds n c hc m →
  (∃ r hc1, call hc = Some (r, hc1) ∧ allocates hc r hc1
            ∧ reify n hc1 r = Some x) →
  ∃ hc2, sbind call (λ r, setitem c k (HRef r)) hc = Some (tt, hc2)
         ∧ building h c hc2 ∧ holds n c hc2 (<[k := x]> m).
Proof.
  intros Hc Hb Hh (r & hc1 & Hcall & Halloc & Hr).
  pose proof Halloc as (Hp & Hrn & _ & Hsep).
  assert (Hh1 : holds n c hc1 m) by by eapply holds_preserved.
  assert (Hx : reify_entry n (delete c hc1) (HRef r) = Some x).
  { simpl. eapply reify_avoids; [exact Hsep| |exact Hrn|exact Hr].
    by destruct Hb as (_ & ? & _). }
  destruct (holds_setitem n c hc1 m k (HRef r) x Hh1 Hx) as (hc2 & Hset & Hh2).
  exists hc2.
  assert (Hrun : sbind call (λ r, setitem c k (HRef r)) hc = Some (tt, hc2)).
  { unfold sbind. by rewrite Hcall. }
  split; [done|]. split; [|done].
  eapply call_setitem_building; [exact Hc|exact Hb| |exact Hrun].
  intros r' hc1'. rewrite Hcall. by intros [= <- <-].
Qed.

Lemma setitem_scalar_holds n h c hc m k hv x :
  h !! c = None → building h c hc → holds n c hc m →
  (∀ l, hv ≠ HRef l) → reify_entry n h hv = Some x →
  ∃ hc2, setitem c k hv hc = Some (tt, hc2)
         ∧ building h c hc2 ∧ holds n c hc2 (<[k := x]> m).
Proof.
  intros Hc Hb Hh Hs Hx.
  destruct (holds_setitem n c hc m k hv x Hh) as (hc2 & Hset & Hh2).
  { by eapply reify_entry_scalar. }
  exists hc2. split; [done|]. split; [|done].
  eapply setitem_building; [exact Hc|exact Hb| |exact Hset].
  intros l ->. by destruct (Hs l).
Qed.

Lemma written_cons k hv xs f (m m' : conf) x :
  k ∉ xs.*1 → f hv = Some x →
  written xs f (<[k := x]> m) m' → written ((k, hv) :: xs) f m m'.
Proof.
  intros Hk Hx Hw j. rewrite (Hw j). simpl.
  destruct (decide (k = j)) as [<-|Hne].
  - rewrite lookup_insert_eq, (not_elem_of_list_to_map_1 _ _ Hk).
    by rewrite lookup_insert_eq.
  - by rewrite !lookup_insert_ne.
Qed.

Lemma deepcopy_loop n N h c :
  copies n N → h !! c = None →
  ∀ xs, NoDup xs.*1 →
        (∀ k hv, (k, hv) ∈ xs → is_Some (reify_entry n h hv)) →
  ∀ hc m, building h c hc → holds n c hc m →
  ∃ h' m',
    for_each xs (λ '(k, v),
      match v with
      | HRef l' => sbind (deepcopy N l') (λ c', setitem c k (HRef c'))
      | _ => setitem c k v
      end) hc = Some (tt, h')
    ∧ building h c h' ∧ holds n c h' m'
    ∧ written xs (reify_entry n h) m m'.
Proof.
  intros W Hc xs. induction xs as [|[k hv] xs IH]; intros Hnd Hall hc m Hb Hh.
  { exists hc, m. do 3 (split; [done|]). by intros j. }
  apply NoDup_cons in Hnd as [Hk Hnd].
  destruct (Hall k hv ltac:(left)) as [x Hx].
  assert (Hstep : ∃ hc2,
    (match hv with
     | HRef l' => sbind (deepcopy N l') (λ c', setitem c k (HRef c'))
     | _ => setitem c k hv
     end) hc = Some (tt, hc2)
    ∧ building h c hc2 ∧ holds n c hc2 (<[k := x]> m)).
  { destruct hv as [b|z|f|s|l'];
      try (by eapply (setitem_scalar_holds n h c hc m k _ x);
             [done|done|done|intros l|exact Hx]).
    eapply call_setitem_holds; [done..|].
    simpl in Hx.
    assert (Hx' : reify n hc l' = Some x).
    { eapply reify_mono; [|exact Hx]. by destruct Hb. }
    destruct (W _ _ _ Hx') as (r & hc1 & Hcopy & Hr).
    exists r, hc1. split; [done|]. split; [|done].
    by eapply deepcopy_allocates. }
  destruct Hstep as (hc2 & Hrun & Hb2 & Hh2).
  destruct (IH Hnd (λ k' hv' Hin, Hall k' hv' ltac:(by right)) hc2 _ Hb2 Hh2)
    as (h' & m' & Hloop & Hb' & Hh' & Hw).
  exists h', m'. split.
  - simpl. unfold sbind at 1. by rewrite Hrun.
  - split; [done|]. split; [done|]. by eapply written_cons.
Qed.

Lemma written_map_to_list (o : obj) f (m' : conf) :
  written (map_to_list o) f ∅ m' → m' = omap f o.
Proof.
  intros Hw. apply map_eq. intros j.
  rewrite (Hw j), list_to_map_to_list, lookup_omap, lookup_empty.
  by destruct (o !! j).
Qed.

Lemma deepcopy_holds n N l h m :
  copies n N → reify (S n) h l = Some (VDict m) →
  ∃ r h', deepcopy (S N) l h = Some (r, h') ∧ holds n r h' m.
Proof.
  intros W (o & Hl & Hall & [= ->])%reify_S.
  destruct (new_dict h) as [[c h1]|] eqn:Hnew; [|done].
  pose proof (holds_new_dict _ _ _ n Hnew) as Hh.
  apply new_dict_building in Hnew as Hcb. destruct Hcb as [Hc Hb].
  destruct (deepcopy_loop n N h c W Hc (map_to_list o)
              (NoDup_fst_map_to_list o)
              (λ k hv Hin, Hall k hv (proj1 (elem_of_map_to_list o k hv) Hin))
              h1 ∅ Hb Hh)
    as (h' & m' & Hloop & _ & Hh' & Hw).
  exists c, h'. split.
  - change (deepcopy (S N) l h) with
      (sbind (read l) (λ o, sbind new_dict (λ c,
         sbind (for_each (map_to_list o) (λ '(k, v),
           match v with
           | HRef l' => sbind (deepcopy N l') (λ c', setitem c k (HRef c'))
           | _ => setitem c k v
           end)) (λ _, sret c))) h).
    unfold sbind at 1, read. rewrite Hl.
    unfold sbind at 1. rewrite Hnew.
    unfold sbind at 1. by rewrite Hloop.
  - by rewrite <- (written_map_to_list _ _ _ Hw).
Qed.

Lemma deepcopy_copies n : ∀ N, (n ≤ N)%nat → copies n N.
Proof.
  induction n as [|n IH]; intros N Hle l hx v Hr; [done|].
  destruct N as [|N]; [lia|].
  destruct (reify_is_dict _ _ _ _ Hr) as [m ->].
  destruct (deepcopy_holds n N l hx m (IH N ltac:(lia)) Hr)
    as (r & h' & Hrun & Hh).
  exists r, h'. split; [done|]. by apply holds_reify.
Qed.

Lemma sbind_some {A B} (c : store_m A) (k : A → store_m B) h a h1 :
  c h = Some (a, h1) → sbind c k h = k a h1.
Proof. intros H. unfold sbind. by rewrite H. Qed.

Lemma overlaid_cons k hv xs f (m m' : conf) ux x :
  k ∉ xs.*1 → f hv = Some ux → overlay (m !! k) (Some ux) = Some x →
  overlaid xs f (<[k := x]> m) m' → overlaid ((k, hv) :: xs) f m m'.
Proof.
  intros Hk Hux Hx Hw j. rewrite (Hw j). simpl.
  destruct (decide (k = j)) as [<-|Hne].
  - rewrite !lookup_insert_eq, (not_elem_of_list_to_map_1 _ _ Hk). simpl.
    by rewrite Hux, Hx.
  - by rewrite !lookup_insert_ne.
Qed.

Lemma overlaid_map_to_list (o : obj) f (D m' : conf) :
  overlaid (map_to_list o) f D m' → m' = update_conf D (omap f o).
Proof.
  intros Hw. apply map_eq. intros j.
  by rewrite (Hw j), list_to_map_to_list, lookup_update_conf, lookup_omap.
Qed.

Lemma reify_entry_scalar_leaf n h hv x :
  (∀ l, hv ≠ HRef l) → reify_entry n h hv = Some x → is_mapping x = false.
Proof.
  intros Hs. destruct hv as [| | | |l]; simpl; try (by intros [= <-]).
  by destruct (Hs l).
Qed.

Lemma overlay_leaf od x :
  is_mapping x = false → overlay od (Some x) = Some x.
Proof. intros Hx. destruct od; simpl; [by rewrite merge_value_leaf_r|done]. Qed.

Lemma holds_lookup n c hc m k :
  holds n c hc m →
  ∃ oc, hc !! c = Some oc ∧ m !! k = oc !! k ≫= reify_entry n (delete c hc).
Proof.
  intros (oc & Hc & _ & <-). exists oc. split; [done|]. by rewrite lookup_omap.
Qed.

Lemma update_loop n N h c :
  merges n N → copies n N → h !! c = None →
  ∀ xs, NoDup xs.*1 →
        (∀ k hv, (k, hv) ∈ xs → is_Some (reify_entry n h hv)) →
  ∀ hc m, building h c hc → holds n c hc m →
  ∃ h' m',
    for_each xs (λ '(key, value),
      match value with
      | HRef u =>
          sbind (read c) (λ cur,
            match cur !! key with
            | Some (HRef d) =>
                sbind (update_conf_store N d u) (λ r, setitem c key (HRef r))
            | _ => sbind (deepcopy N u) (λ r, setitem c key (HRef r))
            end)
      | _ => setitem c key value
      end) hc = Some (tt, h')
    ∧ building h c h' ∧ holds n c h' m'
    ∧ overlaid xs (reify_entry n h) m m'.
Proof.
  intros Wm Wc Hc xs. induction xs as [|[k hv] xs IH]; intros Hnd Hall hc m Hb Hh.
  { exists hc, m. do 3 (split; [done|]). intros j. simpl.
    rewrite lookup_empty. simpl. by destruct (m !! j). }
  apply NoDup_cons in Hnd as [Hk Hnd].
  destruct (Hall k hv ltac:(left)) as [ux Hux].
  assert (Hstep : ∃ hc2 x,
    (match hv with
     | HRef u =>
         sbind (read c) (λ cur,
           match cur !! k with
           | Some (HRef d) =>
               sbind (update_conf_store N d u) (λ r, setitem c k (HRef r))
           | _ => sbind (deepcopy N u) (λ r, setitem c k (HRef r))
           end)
     | _ => setitem c k hv
     end) hc = Some (tt, hc2)
    ∧ building h c hc2 ∧ holds n c hc2 (<[k := x]> m)
    ∧ overlay (m !! k) (Some ux) = Some x).
  { assert (Hscalar : (∀ l, hv ≠ HRef l) →
      ∃ hc2 x, setitem c k hv hc = Some (tt, hc2)
               ∧ building h c hc2 ∧ holds n c hc2 (<[k := x]> m)
               ∧ overlay (m !! k) (Some ux) = Some x).
    { intros Hs.
      destruct (setitem_scalar_holds n h c hc m k hv ux Hc Hb Hh Hs Hux)
        as (hc2 & Hset & Hb2 & Hh2).
      exists hc2, ux. do 3 (split; [done|]).
      apply overlay_leaf. by eapply reify_entry_scalar_leaf. }
    destruct hv as [b|z|f|s|ul]; try (by apply Hscalar).
    clear Hscalar. simpl in Hux.
    destruct (reify_is_dict _ _ _ _ Hux) as [um ->].
    assert (Hu : reify n hc ul = Some (VDict um)).
    { eapply reify_mono; [|exact Hux]. by destruct Hb. }
    destruct (holds_lookup n c hc m k Hh) as (oc & Hoc & Hmk).
    unfold sbind at 1, read. rewrite Hoc.
    destruct (oc !! k) as [[b|z|f|s|cl]|] eqn:Hock; simpl in Hmk.
    1-4,6: destruct (Wc _ _ _ Hu) as (r & hc1 & Hcopy & Hr);
      destruct (call_setitem_holds n h c hc m (deepcopy N ul) k (VDict um) Hc Hb Hh)
        as (hc2 & Hrun & Hb2 & Hh2);
      [ exists r, hc1; split; [done|]; split; [by eapply deepcopy_allocates|done]
      | exists hc2, (VDict um); do 3 (split; [done|]); by rewrite Hmk ].
    destruct (reify n (delete c hc) cl) as [y|] eqn:Hcl; cycle 1.
    { destruct Hh as (oc' & Hoc' & Hall' & _). rewrite Hoc in Hoc'.
      injection Hoc' as <-. destruct (Hall' k _ Hock) as [y Hy].
      simpl in Hy. congruence. }
    destruct (reify_is_dict _ _ _ _ Hcl) as [dm ->].
    assert (Hd : reify n hc cl = Some (VDict dm)).
    { eapply reify_mono; [apply preserved_delete|exact Hcl]. }
    destruct (Wm _ _ _ _ _ Hd Hu) as (r & hc1 & Hmerge & Hr).
    destruct (call_setitem_holds n h c hc m (update_conf_store N cl ul) k
                (VDict (update_conf dm um)) Hc Hb Hh)
      as (hc2 & Hrun & Hb2 & Hh2).
    { exists r, hc1. split; [done|].
      split; [by eapply update_conf_store_allocates|done]. }
    exists hc2, (VDict (update_conf dm um)). do 3 (split; [done|]).
    by rewrite Hmk. }
  destruct Hstep as (hc2 & x & Hrun & Hb2 & Hh2 & Hx).
  destruct (IH Hnd (λ k' hv' Hin, Hall k' hv' ltac:(by right)) hc2 _ Hb2 Hh2)
    as (h' & m' & Hloop & Hb' & Hh' & Hw).
  exists h', m'. split.
  - simpl. unfold sbind at 1. by rewrite Hrun.
  - split; [done|]. split; [done|]. by eapply overlaid_cons.
Qed.

Lemma update_conf_store_holds n N d u h (D U : conf) :
  merges n (S N) → copies n N → copies n (S N) →
  reify (S n) h d = Some (VDict D) → reify (S n) h u = Some (VDict U) →
  ∃ r h', update_conf_store (S (S N)) d u h = Some (r, h')
          ∧ holds n r h' (update_conf D U).
Proof.
  intros Wm Wc Wc' Hd (ou & Hu & Hall & [= ->])%reify_S.
  destruct (deepcopy_holds n N d h D Wc Hd) as (c & h1 & Hcopy & Hh).
  pose proof (deepcopy_allocates _ _ _ _ _ Hcopy) as (Hp & Hc & Hsome & Hsep).
  assert (Hb : building h c h1) by done.
  destruct (update_loop n (S N) h c Wm Wc' Hc (map_to_list ou)
              (NoDup_fst_map_to_list ou)
              (λ k hv Hin, Hall k hv (proj1 (elem_of_map_to_list ou k hv) Hin))
              h1 D Hb Hh)
    as (h' & m' & Hloop & _ & Hh' & Hw).
  exists c, h'. split.
  - change (update_conf_store (S (S N)) d u h) with
      (sbind (deepcopy (S N) d) (λ config, sbind (read u) (λ user,
         sbind (for_each (map_to_list user) (λ '(key, value),
           match value with
           | HRef u =>
               sbind (read config) (λ cur,
                 match cur !! key with
                 | Some (HRef d) =>
                     sbind (update_conf_store (S N) d u)
                       (λ r, setitem config key (HRef r))
                 | _ => sbind (deepcopy (S N) u)
                          (λ r, setitem config key (HRef r))
                 end)
           | _ => setitem config key value
           end)) (λ _, sret config))) h).
    rewrite (sbind_some _ _ _ _ _ Hcopy).
    rewrite (sbind_some (read u) _ h1 ou h1) by (unfold read; by rewrite (Hp _ _ Hu)).
    by rewrite (sbind_some _ _ _ _ _ Hloop).
  - by rewrite <- (overlaid_map_to_list _ _ _ _ Hw).
Qed.

Lemma update_conf_store_merges n : ∀ N, (n < N)%nat → merges n N.
Proof.
  induction n as [|n IH]; intros N Hlt d u h D U Hd Hu; [done|].
  destruct N as [|[|N]]; [lia..|].
  destruct (update_conf_store_holds n N d u h D U) as (r & h' & Hrun & Hh);
    [apply IH; lia|apply deepcopy_copies; lia|apply deepcopy_copies; lia
    |done|done|].
  exists r, h'. split; [done|]. by apply holds_reify.
Qed.

(** The call on the store computes [update_conf]: when the defaults and
    the user configuration are read at [def_cfg] and [user_cfg], with
    enough fuel for their depth the call returns, and the store it leaves
    holds their merge at the reference returned. *)
Theorem update_conf_store_refines n def_cfg user_cfg h (D U : conf) :
  reify n h def_cfg = Some (VDict D) →
  reify n h user_cfg = Some (VDict U) →
  ∃ r h', update_conf_store (S n) def_cfg user_cfg h = Some (r, h')
          ∧ reify n h' r = Some (VDict (update_conf D U)).
Proof. apply update_conf_store_merges. lia. Qed.

(** C7. [update_conf] writes to neither of its arguments: when the call
    returns, every object that the store held before the call is
    unchanged, so the defaults and the user configuration (and any other
    configuration) read back as the same values; the result is a new
    object, and the objects made by the call refer to no object that
    existed before it: the result shares no dictionary with its
    arguments. *)
Theorem update_conf_store_frame fuel def_cfg user_cfg h r h' :
  update_conf_store fuel def_cfg user_cfg h = Some (r, h') →
  preserved h h'
  ∧ (∀ n l v, reify n h l = Some v → reify n h' l = Some v)
  ∧ h !! r = None ∧ is_Some (h' !! r)
  ∧ separate h h'.
Proof.
  intros (Hp & Hr & Hs & Hsep)%update_conf_store_allocates.
  split; [done|]. split; [|done].
  intros n. by apply reify_mono.
Qed.

(** C6. Merging the same user configuration a second time changes
    nothing. *)
Theorem update_conf_idempotent (D U : conf) :
  update_conf (update_conf D U) U = update_conf D U.
Proof.
  pose proof (merge_value_absorb (VDict U) (VDict D)) as H.
  rewrite !merge_value_dict in H. by injection H.
Qed.

(** C5. The merge drops no key of the user configuration, at any depth;
    a user value that is not a mapping is found unchanged under its key
    (under its path, when nested) in the result, and where defaults and
    user both hold a mapping under a key the result holds their merge, in
    which the same is true; a key of the defaults that the user
    configuration does not have keeps its default value, at the top
    level and, under its path, at any depth. *)
Theorem update_conf_keeps_user_and_defaults (D U : conf) :
  dom U ⊆ dom (update_conf D U)
  ∧ (∀ k u, U !! k = Some u →
       update_conf D U !! k
       = Some (match D !! k with Some d => merge_value d u | None => u end))
  ∧ (∀ k u, U !! k = Some u → is_mapping u = false →
       update_conf D U !! k = Some u)
  ∧ (∀ p x, lookup_path p (VDict U) = Some x →
       is_Some (lookup_path p (VDict (update_conf D U))))
  ∧ (∀ p x, lookup_path p (VDict U) = Some x → is_mapping x = false →
       lookup_path p (VDict (update_conf D U)) = Some x)
  ∧ (∀ k, U !! k = None → update_conf D U !! k = D !! k)
  ∧ (∀ p x, lookup_path p (VDict D) = Some x → omits p (VDict U) = true →
       lookup_path p (VDict (update_conf D U)) = Some x).
Proof.
  split; [|split; [|split; [|split; [|split; [|split]]]]].
  - rewrite dom_update_conf. apply union_subseteq_r.
  - intros k u. apply lookup_update_conf_user.
  - intros k u Hu Hl. rewrite (lookup_update_conf_user _ _ _ u Hu).
    destruct (D !! k); [by rewrite merge_value_leaf_r|done].
  - intros p x Hp. rewrite <- merge_value_dict. by eapply lookup_path_merge_some.
  - intros p x Hp Hl. rewrite <- merge_value_dict. by apply lookup_path_merge_leaf.
  - intros k. apply lookup_update_conf_default.
  - intros p x Hp Ho. rewrite <- merge_value_dict.
    by apply lookup_path_merge_default.
Qed.

(** ** The checker *)

Lemma bind_ret_l {A B} (a : A) (k : A → run B) : bind (ret a) k = k a.
Proof. unfold bind, ret. by destruct (k a). Qed.

Lemma bind_lift_return {A B} (a : A) (k : A → run B) :
  bind (lift (Return a)) k = k a.
Proof. apply bind_ret_l. Qed.

Lemma bind_emit {B} e (k : unit → run B) :
  bind (emit e) k = (e :: fst (k tt), snd (k tt)).
Proof. unfold bind, emit. by destruct (k tt). Qed.

Lemma bind_assoc {A B C} (c : run A) (k : A → run B) (h : B → run C) :
  bind (bind c k) h = bind c (λ a, bind (k a) h).
Proof.
  destruct c as [t [a| |]]; simpl; try done.
  destruct (k a) as [t1 [b| |]]; simpl; try done.
  destruct (h b) as [t2 r]. by rewrite app_assoc.
Qed.

Lemma bind_return {A B} (c : run A) (k : A → run B) t a :
  c = (t, Return a) → bind c k = (t ++ fst (k a), snd (k a)).
Proof. intros ->. simpl. by destruct (k a). Qed.

Lemma bind_raise {A B} (c : run A) (k : A → run B) t e :
  c = (t, Raise e) → bind c k = (t, Raise e).
Proof. by intros ->. Qed.

Lemma bind_sys_exit {A B} (c : run A) (k : A → run B) t n :
  c = (t, SysExit n) → bind c k = (t, SysExit n).
Proof. by intros ->. Qed.

Lemma bind_failure {A B} (c : run A) (k : A → run B) t r (r' : outcome B) :
  c = (t, r) → same_failure r r' → bind c k = (t, r').
Proof. intros -> Hf. by destruct Hf. Qed.

Lemma same_failure_not_return {A B} (r : outcome A) (r' : outcome B) :
  same_failure r r' → (∀ a, r ≠ Return a) ∧ (∀ b, r' ≠ Return b).
Proof. by destruct 1. Qed.

(** *** The test on [nodata_right] *)

Lemma nodata_mismatch_trace cfg_input cfg_pipeline :
  fst (nodata_mismatch cfg_input cfg_pipeline) = [].
Proof.
  unfold nodata_mismatch, conf_getitem, getitem, bind, lift, ret.
  destruct (cfg_input !! "input") as [[| | | |inp]|]; try done.
  destruct (inp !! "nodata_right") as [nd|]; [|done].
  destruct (isinstance_float nd); [|done].
  destruct (cfg_pipeline !! "pipeline") as [[| | | |pl]|]; try done.
  destruct (pl !! "matching_cost") as [[| | | |mc]|]; try done.
  by destruct (mc !! "matching_cost_method").
Qed.

Lemma nodata_mismatch_not_float (cfg_input cfg_pipeline inp : conf) nd :
  cfg_input !! "input" = Some (VDict inp) →
  inp !! "nodata_right" = Some nd →
  isinstance_float nd = false →
  nodata_mismatch cfg_input cfg_pipeline = ret false.
Proof.
  intros Hi Hn Hf. unfold nodata_mismatch, conf_getitem, getitem.
  by rewrite Hi, bind_lift_return, Hn, bind_lift_return, Hf.
Qed.

Lemma nodata_mismatch_no_matching_cost (cfg_input cfg_pipeline inp pl : conf) f :
  cfg_input !! "input" = Some (VDict inp) →
  inp !! "nodata_right" = Some (VFloat f) →
  cfg_pipeline !! "pipeline" = Some (VDict pl) →
  pl !! "matching_cost" = None →
  nodata_mismatch cfg_input cfg_pipeline = raise (KeyError "matching_cost").
Proof.
  intros Hi Hn Hp Hm. unfold nodata_mismatch, conf_getitem, getitem.
  rewrite Hi, bind_lift_return, Hn, bind_lift_return. simpl.
  by rewrite Hp, Hm.
Qed.

Lemma nodata_mismatch_method (cfg_input cfg_pipeline inp pl mc : conf) f method :
  cfg_input !! "input" = Some (VDict inp) →
  inp !! "nodata_right" = Some (VFloat f) →
  cfg_pipeline !! "pipeline" = Some (VDict pl) →
  pl !! "matching_cost" = Some (VDict mc) →
  mc !! "matching_cost_method" = Some method →
  nodata_mismatch cfg_input cfg_pipeline = ret (in_sad_ssd method).
Proof.
  intros Hi Hn Hp Hm Hmm. unfold nodata_mismatch, conf_getitem, getitem.
  rewrite Hi, bind_lift_return, Hn, bind_lift_return. simpl.
  by rewrite Hp, Hm, Hmm.
Qed.

Section CheckJsonProperties.

Context (rasterio_can_open_mandatory : string → bool).
Context (check_images check_disparities : value → value → outcome unit).
Context (machine_check_conf : value → outcome conf).
Context (ignore_extra_keys : bool).

Local Abbreviation conforms := (conforms ignore_extra_keys).
Local Abbreviation input_section_schema :=
  (input_section_schema rasterio_can_open_mandatory).
Local Abbreviation input_checks := (input_checks check_images check_disparities).
Local Abbreviation image_ok := (image_ok rasterio_can_open_mandatory).
Local Abbreviation check_input_section :=
  (check_input_section rasterio_can_open_mandatory check_images
     check_disparities ignore_extra_keys).
Local Abbreviation check_pipeline_section :=
  (check_pipeline_section machine_check_conf ignore_extra_keys).
Local Abbreviation check_sections :=
  (check_sections rasterio_can_open_mandatory check_images check_disparities
     machine_check_conf ignore_extra_keys).
Local Abbreviation check_conf :=
  (check_conf rasterio_can_open_mandatory check_images check_disparities
     machine_check_conf ignore_extra_keys).

(** [check_conf] is the exclusivity test followed by [check_sections]. *)
Lemma check_conf_exclusivity_test user_cfg p i :
  user_cfg !! "pipeline" = Some (VDict p) →
  user_cfg !! "input" = Some (VDict i) →
  check_conf user_cfg
  = if xorb (has_estimation p) (has_all_disparities i)
    then check_sections user_cfg (has_estimation p)
    else ([LogError exclusivity_msg], SysExit 1).
Proof.
  intros Hp Hi. unfold check_conf, conf_getitem. rewrite Hp, Hi.
  unfold py_in, py_issubset. rewrite !bind_lift_return.
  fold (has_estimation p). fold (has_all_disparities i).
  by destruct (xorb _ _).
Qed.

(** *** Schemas *)

Lemma conforms_dict fields (m : conf) :
  conforms (SDict fields) (VDict m) = true ↔
    (∀ k c, (k, c) ∈ fields → ∃ x, m !! k = Some x ∧ conforms c x = true)
    ∧ (ignore_extra_keys = true ∨ dom m ⊆ list_to_set (map fst fields)).
Proof.
  simpl. rewrite andb_true_iff, orb_true_iff, bool_decide_eq_true.
  rewrite forallb_forall.
  split; intros [Hf He]; (split; [|done]).
  - intros k c Hin. apply list_elem_of_In, Hf in Hin.
    destruct (m !! k) as [x|]; [by eexists|done].
  - intros [k c] Hin. apply list_elem_of_In, Hf in Hin.
    destruct Hin as (x & -> & Hx). done.
Qed.

Lemma conforms_not_dict fields v :
  is_mapping v = false → conforms (SDict fields) v = false.
Proof. by destruct v. Qed.

Lemma checker_validate_ok s cfg :
  conforms s (VDict cfg) = true →
  checker_validate ignore_extra_keys s cfg = ret tt.
Proof. intros H. unfold checker_validate. by rewrite H. Qed.

Lemma checker_validate_ko s cfg :
  conforms s (VDict cfg) = false →
  checker_validate ignore_extra_keys s cfg = raise CheckerError.
Proof. intros H. unfold checker_validate. by rewrite H. Qed.

(** *** The sections handed to the two section checkers *)

Lemma get_config_input_dict user_cfg v :
  user_cfg !! "input" = Some v → get_config_input user_cfg = {[ "input" := v ]}.
Proof. intros H. unfold get_config_input, get_section. by rewrite H. Qed.

Lemma get_config_pipeline_dict user_cfg v :
  user_cfg !! "pipeline" = Some v →
  get_config_pipeline user_cfg = {[ "pipeline" := v ]}.
Proof. intros H. unfold get_config_pipeline, get_section. by rewrite H. Qed.

(** *** [check_pipeline_section] *)

Lemma check_pipeline_section_eq pv :
  check_pipeline_section {[ "pipeline" := pv ]}
  = match machine_check_conf pv with
    | Return pipeline_cfg =>
        let cfg := update_conf {[ "pipeline" := pv ]} pipeline_cfg in
        ([MachineCheck pv; Validate PipelineSchema cfg],
         if conforms pipeline_section_schema (VDict cfg) then Return cfg
         else Raise CheckerError)
    | Raise e => ([MachineCheck pv], Raise e)
    | SysExit n => ([MachineCheck pv], SysExit n)
    end.
Proof.
  unfold check_pipeline_section. rewrite update_conf_empty_l.
  unfold conf_getitem. rewrite lookup_singleton_eq, bind_lift_return.
  rewrite bind_emit.
  destruct (machine_check_conf pv) as [pc|e|n]; try done.
  rewrite bind_lift_return. cbv zeta. rewrite bind_emit.
  unfold checker_validate.
  by destruct (conforms _ _).
Qed.

(** *** [check_input_section] *)

(** The merged input configuration when the user gives an input
    section that is a dictionary. *)
Lemma merged_input_section (i : conf) :
  update_conf default_short_configuration_input {[ "input" := VDict i ]}
  = {[ "input" := VDict (update_conf default_input i) ]}.
Proof.
  apply map_eq. intros k. rewrite lookup_update_conf.
  unfold default_short_configuration_input.
  destruct (decide (k = "input")) as [->|Hk].
  - by rewrite !lookup_singleton_eq.
  - by rewrite !lookup_singleton_ne.
Qed.

Lemma check_input_section_invalid user_cfg flag :
  let cfg := update_conf default_short_configuration_input user_cfg in
  conforms (input_section_schema flag) (VDict cfg) = false →
  check_input_section user_cfg flag
  = ([Validate (input_schema_id flag) cfg], Raise CheckerError).
Proof.
  intros cfg H. unfold check_input_section. fold cfg.
  rewrite bind_emit, (checker_validate_ko _ _ H). done.
Qed.

Lemma check_input_section_valid user_cfg flag inp l r a b c d :
  let cfg := update_conf default_short_configuration_input user_cfg in
  conforms (input_section_schema flag) (VDict cfg) = true →
  cfg !! "input" = Some (VDict inp) →
  inp !! "img_left" = Some l → inp !! "img_right" = Some r →
  inp !! "disp_min_col" = Some a → inp !! "disp_max_col" = Some b →
  inp !! "disp_min_row" = Some c → inp !! "disp_max_row" = Some d →
  check_input_section user_cfg flag
  = (emit (Validate (input_schema_id flag) cfg) ;;; input_checks cfg l r a b c d).
Proof.
  intros cfg H Hin Hl Hr Ha Hb Hc Hd. unfold check_input_section. fold cfg.
  rewrite (checker_validate_ok _ _ H).
  unfold input_checks, conf_getitem, getitem, bind, emit, lift, ret.
  rewrite Hin, Hl, Hr. simpl.
  destruct (check_images l r) as [[]|?|?]; simpl; [|done..].
  rewrite Ha, Hb. simpl.
  destruct (check_disparities a b) as [[]|?|?]; simpl; [|done..].
  rewrite Hc, Hd. simpl.
  by destruct (check_disparities c d) as [[]|?|?].
Qed.

(** *** What the input schemas require of each field *)

Lemma conforms_int v : conforms (SType TInt) v = true ↔ ∃ z, v = VInt z.
Proof. destruct v; simpl; split; try done; try (by intros [? ?]); by eexists. Qed.

Lemma conforms_isnan v : conforms (SPred np_isnan) v = true ↔ v = np_nan.
Proof.
  destruct v as [| |f| |]; simpl; split; try done.
  - by destruct f.
  - intros [= ->]. done.
Qed.

Lemma conforms_nodata v : conforms nodata_schema v = true ↔ nodata_ok v.
Proof.
  unfold nodata_ok. destruct v as [| |f| |]; simpl; split; try done;
    try (intros [[? ?]|[?|[? ?]]]; done); try (intros _; left; by eexists).
  - destruct f; simpl; try done; intros _; right; [right; by eexists | by left].
  - intros [[? ?]|[[= ->]|[? [= ->]]]]; done.
Qed.

Lemma conforms_image v :
  conforms (image_schema rasterio_can_open_mandatory) v = true
  ↔ ∃ path, v = VStr path ∧ rasterio_can_open_mandatory path = true.
Proof.
  destruct v as [| | |s|]; simpl; split; try done;
    try (by intros (? & ? & ?)).
  - rewrite andb_true_r. by eexists.
  - intros (? & [= <-] & ->). done.
Qed.

Lemma input_section_conforms flag (cfg : conf) :
  conforms (input_section_schema flag) (VDict cfg) = true →
  ∃ inp, cfg !! "input" = Some (VDict inp)
         ∧ conforms (input_schema_of rasterio_can_open_mandatory flag) (VDict inp) = true.
Proof.
  intros [Hf _]%conforms_dict.
  destruct (Hf "input" (input_schema_of rasterio_can_open_mandatory flag))
    as (x & Hx & Hc); [by left|].
  destruct x as [| | | |inp]; try (by destruct flag).
  by exists inp.
Qed.

Lemma conforms_disp (flag : bool) v :
  conforms (if flag then SPred np_isnan else SType TInt) v = true ↔ disp_ok flag v.
Proof. destruct flag; [apply conforms_isnan | apply conforms_int]. Qed.

(** Field by field, what a conforming input section holds. *)
Lemma input_schema_conforms flag (inp : conf) :
  conforms (input_schema_of rasterio_can_open_mandatory flag) (VDict inp) = true ↔
    (∃ l r nl nr a b c d,
        inp !! "img_left" = Some l ∧ inp !! "img_right" = Some r
        ∧ inp !! "nodata_left" = Some nl ∧ inp !! "nodata_right" = Some nr
        ∧ inp !! "disp_min_col" = Some a ∧ inp !! "disp_max_col" = Some b
        ∧ inp !! "disp_min_row" = Some c ∧ inp !! "disp_max_row" = Some d
        ∧ image_ok l ∧ image_ok r ∧ nodata_ok nl ∧ nodata_ok nr
        ∧ disp_ok flag a ∧ disp_ok flag b ∧ disp_ok flag c ∧ disp_ok flag d)
    ∧ (ignore_extra_keys = true ∨ dom inp ⊆ input_keys).
Proof.
  assert (Hs : input_schema_of rasterio_can_open_mandatory flag
               = SDict [ ("img_left", image_schema rasterio_can_open_mandatory);
                         ("img_right", image_schema rasterio_can_open_mandatory);
                         ("nodata_left", nodata_schema);
                         ("nodata_right", nodata_schema);
                         ("disp_min_col", if flag then SPred np_isnan else SType TInt);
                         ("disp_max_col", if flag then SPred np_isnan else SType TInt);
                         ("disp_min_row", if flag then SPred np_isnan else SType TInt);
                         ("disp_max_row", if flag then SPred np_isnan else SType TInt) ])
    by by destruct flag.
  rewrite Hs, conforms_dict. clear Hs.
  split; intros [Hf He]; (split; [|exact He]).
  - edestruct (Hf "img_left") as (l & Hl & ?%conforms_image); [repeat constructor|].
    edestruct (Hf "img_right") as (r & Hr & ?%conforms_image); [repeat constructor|].
    edestruct (Hf "nodata_left") as (nl & Hnl & ?%conforms_nodata); [repeat constructor|].
    edestruct (Hf "nodata_right") as (nr & Hnr & ?%conforms_nodata); [repeat constructor|].
    edestruct (Hf "disp_min_col") as (a & Ha & ?%conforms_disp); [repeat constructor|].
    edestruct (Hf "disp_max_col") as (b & Hb & ?%conforms_disp); [repeat constructor|].
    edestruct (Hf "disp_min_row") as (c & Hc & ?%conforms_disp); [repeat constructor|].
    edestruct (Hf "disp_max_row") as (d & Hd & ?%conforms_disp); [repeat constructor|].
    exists l, r, nl, nr, a, b, c, d. done.
  - destruct Hf as (l & r & nl & nr & a & b & c & d & Hl & Hr & Hnl & Hnr
                    & Ha & Hb & Hc & Hd & ? & ? & ? & ? & ? & ? & ? & ?).
    intros k s Hin.
    repeat (apply elem_of_cons in Hin as [[= -> ->]|Hin]);
      [ | | | | | | | | by apply elem_of_nil in Hin ];
      eexists; (split; [eassumption|]);
      first [ by apply conforms_image | by apply conforms_nodata
            | by apply conforms_disp ].
Qed.

(** The kinds of schema violation of the input section: a required key
    is missing; an image is not a string (wrong type) or names a raster
    that cannot be opened (failed predicate). *)
Lemma input_schema_missing_key flag (inp : conf) k :
  k ∈ input_keys → inp !! k = None →
  conforms (input_schema_of rasterio_can_open_mandatory flag) (VDict inp) = false.
Proof.
  intros Hk Hn.
  destruct (conforms _ (VDict inp)) eqn:Hc; [exfalso|done].
  apply input_schema_conforms in Hc
    as [(l & r & nl & nr & a & b & c & d & ? & ? & ? & ? & ? & ? & ? & ? & _) _].
  unfold input_keys in Hk. apply elem_of_list_to_set in Hk.
  repeat (apply elem_of_cons in Hk as [->|Hk]; [congruence|]).
  by apply elem_of_nil in Hk.
Qed.

Lemma input_schema_bad_image flag (inp : conf) k v :
  k = "img_left" ∨ k = "img_right" →
  inp !! k = Some v → ¬ image_ok v →
  conforms (input_schema_of rasterio_can_open_mandatory flag) (VDict inp) = false.
Proof.
  intros Hk Hv Hbad.
  destruct (conforms _ (VDict inp)) eqn:Hc; [exfalso|done].
  apply input_schema_conforms in Hc
    as [(l & r & nl & nr & a & b & c & d & Hl & Hr & _ & _ & _ & _ & _ & _
         & Hli & Hri & _) _].
  destruct Hk as [-> | ->]; simplify_eq; done.
Qed.

(** *** [check_conf] after the exclusivity test *)

Lemma check_sections_pipeline_failure user_cfg flag t1 r (r' : outcome conf) :
  check_pipeline_section (get_config_pipeline user_cfg) = (t1, r) →
  same_failure r r' →
  check_sections user_cfg flag = (t1, r').
Proof. intros Hp Hf. unfold check_sections. by erewrite bind_failure. Qed.

Lemma check_sections_input_failure user_cfg flag t1 cfg_pipeline t2 r
    (r' : outcome conf) :
  check_pipeline_section (get_config_pipeline user_cfg) = (t1, Return cfg_pipeline) →
  check_input_section (get_config_input user_cfg) flag = (t2, r) →
  same_failure r r' →
  check_sections user_cfg flag = (t1 ++ t2, r').
Proof.
  intros Hp Hi Hf. unfold check_sections.
  rewrite (bind_return _ _ _ _ Hp). cbv beta.
  by rewrite (bind_failure _ _ _ _ _ Hi Hf).
Qed.

Lemma check_sections_checked user_cfg flag t1 cfg_pipeline t2 cfg_input :
  check_pipeline_section (get_config_pipeline user_cfg) = (t1, Return cfg_pipeline) →
  check_input_section (get_config_input user_cfg) flag = (t2, Return cfg_input) →
  check_sections user_cfg flag
  = match snd (nodata_mismatch cfg_input cfg_pipeline) with
    | Return true => (t1 ++ t2 ++ [LogError nodata_msg], SysExit 1)
    | Return false => (t1 ++ t2, Return (concat_conf [cfg_input; cfg_pipeline]))
    | Raise e => (t1 ++ t2, Raise e)
    | SysExit n => (t1 ++ t2, SysExit n)
    end.
Proof.
  intros Hp Hi. unfold check_sections.
  rewrite (bind_return _ _ _ _ Hp). cbv beta.
  rewrite (bind_return _ _ _ _ Hi). cbv beta.
  pose proof (nodata_mismatch_trace cfg_input cfg_pipeline) as Ht.
  destruct (nodata_mismatch cfg_input cfg_pipeline) as [tm [[]|e|n]];
    simpl in *; subst tm; simpl; by rewrite ?app_nil_r, ?app_assoc.
Qed.

(** *** The exclusivity rule *)

Lemma has_all_disparities_false (i : conf) k :
  k ∈ disp_keys → k ∉ dom i → has_all_disparities i = false.
Proof.
  intros Hk Hd. destruct (has_all_disparities i) eqn:E; [|done].
  unfold has_all_disparities in E. rewrite forallb_forall in E.
  apply list_elem_of_In, E, bool_decide_eq_true in Hk. done.
Qed.

Lemma has_all_disparities_true (i : conf) :
  has_all_disparities i = true ↔ ∀ k, k ∈ disp_keys → is_Some (i !! k).
Proof.
  unfold has_all_disparities. rewrite forallb_forall. split.
  - intros H k Hk. apply elem_of_dom. eapply bool_decide_eq_true_1, H.
    by apply list_elem_of_In.
  - intros H k Hk. apply bool_decide_eq_true_2, elem_of_dom, H.
    by apply list_elem_of_In.
Qed.

(** When exactly one side of the rule holds, [check_conf] goes on to
    check the two sections. *)
Lemma check_conf_proceeds user_cfg p i :
  user_cfg !! "pipeline" = Some (VDict p) →
  user_cfg !! "input" = Some (VDict i) →
  xorb (has_estimation p) (has_all_disparities i) = true →
  check_conf user_cfg = check_sections user_cfg (has_estimation p).
Proof. intros Hp Hi Hx. by rewrite (check_conf_exclusivity_test _ p i), Hx. Qed.

Lemma check_conf_rejects user_cfg p i :
  user_cfg !! "pipeline" = Some (VDict p) →
  user_cfg !! "input" = Some (VDict i) →
  xorb (has_estimation p) (has_all_disparities i) = false →
  check_conf user_cfg = ([LogError exclusivity_msg], SysExit 1).
Proof. intros Hp Hi Hx. by rewrite (check_conf_exclusivity_test _ p i), Hx. Qed.

(** C1. For a user configuration whose sections are dictionaries, unless
    exactly one of "an [estimation] step is declared in the pipeline
    section" and "the four disparity bounds are all present in the input
    section" holds, [check_conf] logs the exclusivity error and exits
    with status 1; the only event of the run is that log, so neither the
    pipeline nor the input section has been validated. If a section is
    missing the run ends even earlier, on the [KeyError] of its lookup. *)
Theorem check_conf_exclusivity user_cfg :
  sections_are_mappings user_cfg →
  xorb (estimation_declared user_cfg) (disparities_declared user_cfg) = false →
  check_conf user_cfg
  = match user_cfg !! "pipeline", user_cfg !! "input" with
    | Some _, Some _ => ([LogError exclusivity_msg], SysExit 1)
    | Some _, None => ([], Raise (KeyError "input"))
    | None, _ => ([], Raise (KeyError "pipeline"))
    end.
Proof.
  intros Hm Hx. unfold estimation_declared, disparities_declared in Hx.
  destruct (user_cfg !! "pipeline") as [pv|] eqn:Hp; cycle 1.
  { unfold check_conf, conf_getitem. by rewrite Hp. }
  destruct pv as [| | | |p]; try by apply Hm in Hp.
  destruct (user_cfg !! "input") as [iv|] eqn:Hi; cycle 1.
  { unfold check_conf, conf_getitem. rewrite Hp, bind_lift_return.
    unfold py_in. by rewrite bind_lift_return, Hi. }
  destruct iv as [| | | |i]; try by apply Hm in Hi.
  by apply (check_conf_rejects _ p i).
Qed.

(** C3, amended. With no [estimation] step and one of the four disparity
    bounds missing from the input section (so for every proper subset of
    them), the disparity side of the rule does not hold: [check_conf]
    logs the exclusivity error and exits with status 1 before any schema
    validation. *)
Theorem partial_disparities_exit user_cfg p i k :
  user_cfg !! "pipeline" = Some (VDict p) →
  user_cfg !! "input" = Some (VDict i) →
  "estimation" ∉ dom p →
  k ∈ disp_keys → i !! k = None →
  check_conf user_cfg = ([LogError exclusivity_msg], SysExit 1).
Proof.
  intros Hp Hi He Hk Hn. apply (check_conf_rejects _ p i Hp Hi).
  unfold has_estimation. rewrite bool_decide_eq_false_2 by done.
  rewrite (has_all_disparities_false i k); [done|done|].
  by apply not_elem_of_dom.
Qed.

(** *** Successful runs of the two section checkers *)

Lemma check_pipeline_section_return user_cfg pv t cfg :
  user_cfg !! "pipeline" = Some pv →
  check_pipeline_section (get_config_pipeline user_cfg) = (t, Return cfg) →
  ∃ pipeline_cfg,
    machine_check_conf pv = Return pipeline_cfg
    ∧ cfg = update_conf {[ "pipeline" := pv ]} pipeline_cfg
    ∧ conforms pipeline_section_schema (VDict cfg) = true
    ∧ t = [MachineCheck pv; Validate PipelineSchema cfg].
Proof.
  intros Hp. rewrite (get_config_pipeline_dict _ _ Hp), check_pipeline_section_eq.
  destruct (machine_check_conf pv) as [pc|e|n]; try done.
  cbv zeta. destruct (conforms _ _) eqn:Hc; [|done].
  intros [= <- <-]. by exists pc.
Qed.

Lemma check_pipeline_section_first_event user_cfg pv t r :
  user_cfg !! "pipeline" = Some pv →
  check_pipeline_section (get_config_pipeline user_cfg) = (t, r) →
  ∃ t', t = MachineCheck pv :: t'.
Proof.
  intros Hp. rewrite (get_config_pipeline_dict _ _ Hp), check_pipeline_section_eq.
  destruct (machine_check_conf pv) as [pc|e|n]; intros [= <- _]; by eexists.
Qed.

Lemma pipeline_section_is_dict (cfg : conf) :
  conforms pipeline_section_schema (VDict cfg) = true →
  ∃ pl, cfg !! "pipeline" = Some (VDict pl).
Proof.
  intros [Hf _]%conforms_dict.
  destruct (Hf "pipeline" (SType TDict)) as (x & Hx & Hc); [by left|].
  destruct x; try done. by eexists.
Qed.


Lemma input_checks_return cfg l r a b c d t cfg' :
  input_checks cfg l r a b c d = (t, Return cfg') →
  check_images l r = Return tt ∧ check_disparities a b = Return tt
  ∧ check_disparities c d = Return tt ∧ cfg' = cfg
  ∧ t = [CheckImages l r; CheckDisparities a b; CheckDisparities c d].
Proof.
  unfold input_checks, bind, emit, lift, ret.
  destruct (check_images l r) as [[]|?|?]; simpl; try done.
  destruct (check_disparities a b) as [[]|?|?]; simpl; try done.
  destruct (check_disparities c d) as [[]|?|?]; simpl; try done.
  by intros [= <- <-].
Qed.

Lemma input_checks_accept cfg l r a b c d :
  check_images l r = Return tt → check_disparities a b = Return tt →
  check_disparities c d = Return tt →
  input_checks cfg l r a b c d
  = ([CheckImages l r; CheckDisparities a b; CheckDisparities c d], Return cfg).
Proof.
  intros H1 H2 H3. unfold input_checks, bind, emit, lift, ret.
  by rewrite H1, H2, H3.
Qed.

(** A run of [check_input_section] that returns: the schema of the
    variant holds of the merged configuration, which is the result, and
    the three checks of pandora passed on the fields named. *)
Lemma check_input_section_return user_cfg flag t cfg' :
  check_input_section user_cfg flag = (t, Return cfg') →
  let cfg := update_conf default_short_configuration_input user_cfg in
  cfg' = cfg
  ∧ conforms (input_section_schema flag) (VDict cfg) = true
  ∧ ∃ inp l r a b c d,
      cfg !! "input" = Some (VDict inp)
      ∧ inp !! "img_left" = Some l ∧ inp !! "img_right" = Some r
      ∧ inp !! "disp_min_col" = Some a ∧ inp !! "disp_max_col" = Some b
      ∧ inp !! "disp_min_row" = Some c ∧ inp !! "disp_max_row" = Some d
      ∧ check_images l r = Return tt ∧ check_disparities a b = Return tt
      ∧ check_disparities c d = Return tt
      ∧ t = [Validate (input_schema_id flag) cfg; CheckImages l r;
             CheckDisparities a b; CheckDisparities c d].
Proof.
  intros Hrun cfg.
  destruct (conforms (input_section_schema flag) (VDict cfg)) eqn:Hc; cycle 1.
  { by rewrite (check_input_section_invalid _ _ Hc) in Hrun. }
  destruct (input_section_conforms _ _ Hc) as (inp & Hin & Hs).
  pose proof Hs as Hs'. apply input_schema_conforms in Hs'.
  destruct Hs' as [(l & r & nl & nr & a & b & c & d & Hl & Hr & _ & _
                   & Ha & Hb & Hc' & Hd & _) _].
  rewrite (check_input_section_valid _ _ inp l r a b c d) in Hrun by done.
  rewrite bind_emit in Hrun. fold cfg in Hrun.
  destruct (input_checks cfg l r a b c d) as [t' r'] eqn:Hk.
  simpl in Hrun. injection Hrun as <- ->.
  apply input_checks_return in Hk as (? & ? & ? & -> & ->).
  split; [done|]. split; [done|]. by exists inp, l, r, a, b, c, d.
Qed.


(** C10, amended. The lookup of the [matching_cost] entry happens only
    when [nodata_right] is a float, and the test is reached only once
    the input section is validated. Once the pipeline section is
    validated:
    - with an integer [nodata_right], the run returns the concatenated
      configuration as soon as the input section validates, whatever the
      validated pipeline contains, a [matching_cost] step or none;
    - a [nodata_right] that is an ordinary float (neither NaN nor an
      infinity) violates the input schema: the run raises the error of
      the schema checker and the [matching_cost] entry is not looked up;
    - a float [nodata_right] that passes the input validation is a NaN
      or infinity sentinel, and when the validated pipeline has no
      [matching_cost] step the run raises [KeyError], with no log and no
      exit. *)
Theorem nodata_test_short_circuits user_cfg p i t1 cfg_pipeline :
  user_cfg !! "pipeline" = Some (VDict p) →
  user_cfg !! "input" = Some (VDict i) →
  let flag := has_estimation p in
  xorb flag (has_all_disparities i) = true →
  check_pipeline_section (get_config_pipeline user_cfg) = (t1, Return cfg_pipeline) →
  let cfg := update_conf default_short_configuration_input
               (get_config_input user_cfg) in
  (∀ z t2 cfg_input,
     i !! "nodata_right" = Some (VInt z) →
     check_input_section (get_config_input user_cfg) flag = (t2, Return cfg_input) →
     check_conf user_cfg
     = (t1 ++ t2, Return (concat_conf [cfg_input; cfg_pipeline])))
  ∧ (∀ f,
       i !! "nodata_right" = Some (VFloat f) →
       f ≠ S754_nan → (∀ sgn, f ≠ S754_infinity sgn) →
       check_conf user_cfg
       = (t1 ++ [Validate (input_schema_id flag) cfg], Raise CheckerError))
  ∧ (∀ f t2 cfg_input pl,
       i !! "nodata_right" = Some (VFloat f) →
       check_input_section (get_config_input user_cfg) flag = (t2, Return cfg_input) →
       cfg_pipeline !! "pipeline" = Some (VDict pl) →
       pl !! "matching_cost" = None →
       (f = S754_nan ∨ ∃ sgn, f = S754_infinity sgn)
       ∧ check_conf user_cfg = (t1 ++ t2, Raise (KeyError "matching_cost"))).
Proof.
  intros Hp Hi flag Hx Hps cfg.
  assert (Hnr : ∀ v, i !! "nodata_right" = Some v → is_mapping v = false →
            update_conf default_input i !! "nodata_right" = Some v).
  { intros v Hv Hl. rewrite (lookup_update_conf_user _ _ _ v Hv).
    destruct (default_input !! "nodata_right"); [|done].
    by rewrite merge_value_leaf_r. }
  assert (Hcfg : cfg = {[ "input" := VDict (update_conf default_input i) ]}).
  { unfold cfg. by rewrite (get_config_input_dict _ _ Hi), merged_input_section. }
  assert (Hin : cfg !! "input" = Some (VDict (update_conf default_input i))).
  { rewrite Hcfg. apply lookup_singleton_eq. }
  assert (Hsentinel : ∀ f, i !! "nodata_right" = Some (VFloat f) →
            conforms (input_section_schema flag) (VDict cfg) = true →
            f = S754_nan ∨ ∃ sgn, f = S754_infinity sgn).
  { intros f Hf Hc.
    destruct (input_section_conforms _ _ Hc) as (inp & Hin' & Hs).
    rewrite Hin in Hin'. injection Hin' as <-.
    apply input_schema_conforms in Hs
      as [(l & r & nl & nr & a & b & c & d & _ & _ & _ & Hnr' & _ & _ & _ & _
           & _ & _ & _ & Hok & _) _].
    rewrite (Hnr _ Hf eq_refl) in Hnr'. injection Hnr' as <-.
    destruct Hok as [[z ?]|[?|[sgn ?]]]; simplify_eq; eauto. }
  rewrite (check_conf_proceeds _ p i Hp Hi Hx). fold flag.
  split; [|split].
  - intros z t2 cfgi Hz His.
    pose proof His as Hret. apply check_input_section_return in Hret.
    cbv zeta in Hret. fold cfg in Hret. destruct Hret as (-> & _).
    rewrite (check_sections_checked _ _ _ _ _ _ Hps His).
    by rewrite (nodata_mismatch_not_float _ _ _ (VInt z) Hin (Hnr _ Hz eq_refl)).
  - intros f Hf Hnan Hinf.
    eapply check_sections_input_failure;
      [done| |apply (same_raise CheckerError)].
    apply check_input_section_invalid. fold cfg.
    destruct (conforms (input_section_schema flag) (VDict cfg)) eqn:Hc; [|done].
    destruct (Hsentinel f Hf eq_refl) as [?|[sgn ?]];
      [done|by destruct (Hinf sgn)].
  - intros f t2 cfgi pl Hf His Hpl Hmc.
    pose proof His as Hret. apply check_input_section_return in Hret.
    cbv zeta in Hret. fold cfg in Hret. destruct Hret as (-> & Hc & _).
    split; [by apply Hsentinel|].
    rewrite (check_sections_checked _ _ _ _ _ _ Hps His).
    by rewrite (nodata_mismatch_no_matching_cost _ _ _ pl f Hin
                  (Hnr _ Hf eq_refl) Hpl Hmc).
Qed.

(** C9, amended. [check_conf] runs, in this order: the exclusivity test
    on the raw user configuration; the validation of the pipeline
    section by the state machine; the merge and schema validation of the
    input section; the test of [nodata_right] against the matching cost
    method on the two validated sections; the concatenation of the two
    sections. The failure of a step is the outcome of the run and no
    later step leaves an event; a run that returns has gone through
    every step, in that order. *)
Theorem check_conf_order user_cfg p i :
  user_cfg !! "pipeline" = Some (VDict p) →
  user_cfg !! "input" = Some (VDict i) →
  let flag := has_estimation p in
  let pipeline_run := check_pipeline_section (get_config_pipeline user_cfg) in
  let input_run := check_input_section (get_config_input user_cfg) flag in
  (xorb flag (has_all_disparities i) = false →
     check_conf user_cfg = ([LogError exclusivity_msg], SysExit 1))
  ∧ (xorb flag (has_all_disparities i) = true →
     (∀ t1 r r', pipeline_run = (t1, r) → same_failure r r' →
        check_conf user_cfg = (t1, r'))
     ∧ (∀ t1 cfg_pipeline t2 r r',
          pipeline_run = (t1, Return cfg_pipeline) →
          input_run = (t2, r) → same_failure r r' →
          check_conf user_cfg = (t1 ++ t2, r'))
     ∧ (∀ t1 cfg_pipeline t2 cfg_input,
          pipeline_run = (t1, Return cfg_pipeline) →
          input_run = (t2, Return cfg_input) →
          check_conf user_cfg
          = match snd (nodata_mismatch cfg_input cfg_pipeline) with
            | Return true => (t1 ++ t2 ++ [LogError nodata_msg], SysExit 1)
            | Return false =>
                (t1 ++ t2, Return (concat_conf [cfg_input; cfg_pipeline]))
            | Raise e => (t1 ++ t2, Raise e)
            | SysExit n => (t1 ++ t2, SysExit n)
            end)
     ∧ (∀ t cfg, check_conf user_cfg = (t, Return cfg) →
          ∃ cfg_pipeline cfg_input l r a b c d,
            t = [MachineCheck (VDict p);
                 Validate PipelineSchema cfg_pipeline;
                 Validate (input_schema_id flag) cfg_input;
                 CheckImages l r; CheckDisparities a b; CheckDisparities c d]
            ∧ cfg = concat_conf [cfg_input; cfg_pipeline])).
Proof.
  intros Hp Hi flag pipeline_run input_run. split.
  { apply check_conf_rejects; done. }
  intros Hx. rewrite (check_conf_proceeds _ p i Hp Hi Hx). fold flag.
  split; [|split; [|split]].
  - intros t1 r r' Hps Hf. by eapply check_sections_pipeline_failure.
  - intros t1 cfgp t2 r r' Hps His Hf. by eapply check_sections_input_failure.
  - intros t1 cfgp t2 cfgi Hps His. by apply check_sections_checked.
  - intros t cfg Hrun.
    destruct pipeline_run as [t1 r1] eqn:Hps. subst pipeline_run.
    destruct r1 as [cfgp|e|n]; cycle 1.
    { by rewrite (check_sections_pipeline_failure _ _ _ _ _ Hps (same_raise e))
        in Hrun. }
    { by rewrite (check_sections_pipeline_failure _ _ _ _ _ Hps (same_exit n))
        in Hrun. }
    destruct input_run as [t2 r2] eqn:His. subst input_run.
    destruct r2 as [cfgi|e|n]; cycle 1.
    { by rewrite (check_sections_input_failure _ _ _ _ _ _ _ Hps His
                    (same_raise e)) in Hrun. }
    { by rewrite (check_sections_input_failure _ _ _ _ _ _ _ Hps His
                    (same_exit n)) in Hrun. }
    rewrite (check_sections_checked _ _ _ _ _ _ Hps His) in Hrun.
    destruct (snd (nodata_mismatch cfgi cfgp)) as [[]|e|n]; try done.
    injection Hrun as <- <-.
    apply (check_pipeline_section_return _ (VDict p)) in Hps
      as (pc & _ & _ & _ & ->); [|done].
    apply check_input_section_return in His. cbv zeta in His.
    destruct His as (Hcfgi & _ & inp & l & r & a & b & c & d & _ & _ & _ & _
                     & _ & _ & _ & _ & _ & _ & ->).
    rewrite <- Hcfgi. by exists cfgp, cfgi, l, r, a, b, c, d.
Qed.



(** *** Replacing [nodata_right] by an integer *)

Lemma get_config_input_insert user_cfg v :
  get_config_input (<["input" := v]> user_cfg) = {[ "input" := v ]}.
Proof. apply get_config_input_dict, lookup_insert_eq. Qed.

Lemma get_config_pipeline_insert user_cfg v :
  get_config_pipeline (<["input" := v]> user_cfg) = get_config_pipeline user_cfg.
Proof.
  unfold get_config_pipeline, get_section. by rewrite lookup_insert_ne.
Qed.

Lemma update_conf_insert_leaf (d u : conf) k v :
  is_mapping v = false →
  update_conf d (<[k := v]> u) = <[k := v]> (update_conf d u).
Proof.
  intros Hv. apply map_eq. intros j. rewrite lookup_update_conf.
  destruct (decide (k = j)) as [->|Hne].
  - rewrite !lookup_insert_eq. simpl.
    destruct (d !! j); [by rewrite merge_value_leaf_r|done].
  - by rewrite !lookup_insert_ne, lookup_update_conf.
Qed.

Lemma has_all_disparities_insert_nodata (i : conf) v :
  has_all_disparities (<["nodata_right" := v]> i) = has_all_disparities i.
Proof.
  assert (Hk : ∀ k, k ≠ "nodata_right" →
            bool_decide (k ∈ dom (<["nodata_right" := v]> i))
            = bool_decide (k ∈ dom i)).
  { intros k Hne. apply bool_decide_ext.
    rewrite !elem_of_dom, lookup_insert_ne; done. }
  unfold has_all_disparities, disp_keys. simpl. by rewrite !Hk.
Qed.

Lemma input_schema_conforms_insert_nodata flag (inp : conf) z :
  conforms (input_schema_of rasterio_can_open_mandatory flag) (VDict inp) = true →
  conforms (input_schema_of rasterio_can_open_mandatory flag)
    (VDict (<["nodata_right" := VInt z]> inp)) = true.
Proof.
  rewrite !input_schema_conforms.
  intros [(l & r & nl & nr & a & b & c & d & Hl & Hr & Hnl & Hnr & Ha & Hb
           & Hc & Hd & ? & ? & ? & ? & ? & ? & ? & ?) He].
  split.
  - exists l, r, nl, (VInt z), a, b, c, d.
    rewrite lookup_insert_eq, !lookup_insert_ne by done.
    repeat (split; [done|]). split; [left; by eexists|done].
  - destruct He as [He|He]; [by left|right].
    rewrite dom_insert_L. apply union_least; [|done].
    apply singleton_subseteq_l. unfold input_keys. set_solver.
Qed.

Lemma input_section_conforms_iff flag (inp : conf) :
  conforms (input_section_schema flag) (VDict {[ "input" := VDict inp ]}) = true
  ↔ conforms (input_schema_of rasterio_can_open_mandatory flag) (VDict inp) = true.
Proof.
  unfold input_section_schema. rewrite conforms_dict. split.
  - intros [Hf _]. destruct (Hf "input" _ ltac:(by left)) as (x & Hx & Hc).
    rewrite lookup_singleton_eq in Hx. by injection Hx as <-.
  - intros Hc. split.
    + intros k c [[= -> ->]|Hin%elem_of_nil]%elem_of_cons; [|done].
      exists (VDict inp). by rewrite lookup_singleton_eq.
    + right. rewrite dom_singleton_L. simpl. set_solver.
Qed.

Lemma check_input_section_nodata_int (i : conf) flag t2 cfg_input z :
  check_input_section {[ "input" := VDict i ]} flag = (t2, Return cfg_input) →
  ∃ t2' inp',
    check_input_section {[ "input" := VDict (<["nodata_right" := VInt z]> i) ]} flag
    = (t2', Return {[ "input" := VDict inp' ]})
    ∧ inp' !! "nodata_right" = Some (VInt z).
Proof.
  intros Hrun. apply check_input_section_return in Hrun. cbv zeta in Hrun.
  rewrite merged_input_section in Hrun.
  destruct Hrun as (_ & Hc & inp & l & r & a & b & c & d & Hin & Hl & Hr
                    & Ha & Hb & Hc' & Hd & Him & Hd1 & Hd2 & _).
  rewrite lookup_singleton_eq in Hin. injection Hin as <-.
  set (inp := update_conf default_input i) in *.
  set (inp' := <["nodata_right" := VInt z]> inp).
  assert (Hm : update_conf default_short_configuration_input
                 {[ "input" := VDict (<["nodata_right" := VInt z]> i) ]}
               = {[ "input" := VDict inp' ]}).
  { by rewrite merged_input_section, update_conf_insert_leaf. }
  eexists _, inp'. split; [|by apply lookup_insert_eq].
  rewrite (check_input_section_valid _ _ inp' l r a b c d); rewrite ?Hm;
    try (by rewrite ?lookup_singleton_eq; unfold inp';
         rewrite ?lookup_insert_ne by done).
  - rewrite bind_emit, input_checks_accept by done. done.
  - apply input_section_conforms_iff, input_schema_conforms_insert_nodata.
    by apply input_section_conforms_iff.
Qed.

Lemma merged_nodata_right (i : conf) v :
  i !! "nodata_right" = Some v → is_mapping v = false →
  update_conf default_input i !! "nodata_right" = Some v.
Proof.
  intros Hv Hl. rewrite (lookup_update_conf_user _ _ _ v Hv).
  destruct (default_input !! "nodata_right"); [|done].
  by rewrite merge_value_leaf_r.
Qed.

(** C2, amended. For a configuration whose validated pipeline declares
    the [sad] or [ssd] matching cost method:
    - a [nodata_right] that is an ordinary float (neither NaN nor an
      infinity) violates the input schema, and the run raises the error
      of the schema checker before the rule on [nodata_right] is
      reached;
    - a float [nodata_right] that passes the input validation is a NaN
      or infinity sentinel, and the run logs the [nodata_right] error
      and exits with status 1;
    - with an integer [nodata_right] the run returns as soon as the two
      sections validate, and replacing [nodata_right] by an integer in a
      configuration whose input section validates gives a configuration
      that is accepted. *)
Theorem nodata_right_rule user_cfg p i t1 cfg_pipeline (pl mc : conf) method :
  user_cfg !! "pipeline" = Some (VDict p) →
  user_cfg !! "input" = Some (VDict i) →
  let flag := has_estimation p in
  xorb flag (has_all_disparities i) = true →
  check_pipeline_section (get_config_pipeline user_cfg)
  = (t1, Return cfg_pipeline) →
  cfg_pipeline !! "pipeline" = Some (VDict pl) →
  pl !! "matching_cost" = Some (VDict mc) →
  mc !! "matching_cost_method" = Some (VStr method) →
  method = "sad" ∨ method = "ssd" →
  let cfg := update_conf default_short_configuration_input
               (get_config_input user_cfg) in
  (∀ f, i !! "nodata_right" = Some (VFloat f) →
        f ≠ S754_nan → (∀ sgn, f ≠ S754_infinity sgn) →
        check_conf user_cfg
        = (t1 ++ [Validate (input_schema_id flag) cfg], Raise CheckerError))
  ∧ (∀ f t2 cfg_input,
       i !! "nodata_right" = Some (VFloat f) →
       check_input_section (get_config_input user_cfg) flag
       = (t2, Return cfg_input) →
       (f = S754_nan ∨ ∃ sgn, f = S754_infinity sgn)
       ∧ check_conf user_cfg = (t1 ++ t2 ++ [LogError nodata_msg], SysExit 1))
  ∧ (∀ z t2 cfg_input,
       i !! "nodata_right" = Some (VInt z) →
       check_input_section (get_config_input user_cfg) flag
       = (t2, Return cfg_input) →
       check_conf user_cfg
       = (t1 ++ t2, Return (concat_conf [cfg_input; cfg_pipeline])))
  ∧ (∀ z t2 cfg_input,
       check_input_section (get_config_input user_cfg) flag
       = (t2, Return cfg_input) →
       ∃ t2' cfg_input',
         check_conf (<["input" := VDict (<["nodata_right" := VInt z]> i)]> user_cfg)
         = (t1 ++ t2', Return (concat_conf [cfg_input'; cfg_pipeline]))).
Proof.
  intros Hp Hi flag Hx Hps Hpl Hmc Hm Hsad cfg.
  assert (Hcfg : cfg = {[ "input" := VDict (update_conf default_input i) ]}).
  { unfold cfg. by rewrite (get_config_input_dict _ _ Hi), merged_input_section. }
  assert (Hsentinel : ∀ f, i !! "nodata_right" = Some (VFloat f) →
            conforms (input_section_schema flag) (VDict cfg) = true →
            f = S754_nan ∨ ∃ sgn, f = S754_infinity sgn).
  { intros f Hf Hc. rewrite Hcfg in Hc. apply input_section_conforms_iff in Hc.
    apply input_schema_conforms in Hc
      as [(l & r & nl & nr & a & b & c & d & _ & _ & _ & Hnr & _ & _ & _ & _
           & _ & _ & _ & Hok & _) _].
    rewrite (merged_nodata_right _ _ Hf) in Hnr by done. injection Hnr as <-.
    destruct Hok as [[z ?]|[?|[sgn ?]]]; simplify_eq; eauto. }
  assert (Hin0 : cfg !! "input" = Some (VDict (update_conf default_input i))).
  { rewrite Hcfg. apply lookup_singleton_eq. }
  split; [|split; [|split]].
  - intros f Hf Hnan Hinf.
    rewrite (check_conf_proceeds _ p i Hp Hi Hx). fold flag.
    eapply check_sections_input_failure;
      [done| |apply (same_raise CheckerError)].
    apply check_input_section_invalid. fold cfg.
    destruct (conforms (input_section_schema flag) (VDict cfg)) eqn:Hc; [|done].
    destruct (Hsentinel f Hf eq_refl) as [?|[sgn ?]]; [done|by destruct (Hinf sgn)].
  - intros f t2 cfgi Hf His.
    pose proof His as Hret. apply check_input_section_return in Hret.
    cbv zeta in Hret. fold cfg in Hret. destruct Hret as (-> & Hc & _).
    split; [by apply Hsentinel|].
    rewrite (check_conf_proceeds _ p i Hp Hi Hx). fold flag.
    rewrite (check_sections_checked _ _ _ _ _ _ Hps His).
    rewrite (nodata_mismatch_method _ _ _ pl mc f (VStr method) Hin0
               (merged_nodata_right _ _ Hf eq_refl) Hpl Hmc Hm).
    by destruct Hsad as [-> | ->].
  - intros z t2 cfgi Hz His.
    pose proof His as Hret. apply check_input_section_return in Hret.
    cbv zeta in Hret. fold cfg in Hret. destruct Hret as (-> & _).
    rewrite (check_conf_proceeds _ p i Hp Hi Hx). fold flag.
    rewrite (check_sections_checked _ _ _ _ _ _ Hps His).
    by rewrite (nodata_mismatch_not_float _ _ _ (VInt z) Hin0
                  (merged_nodata_right _ _ Hz eq_refl) eq_refl).
  - intros z t2 cfgi His.
    rewrite (get_config_input_dict _ _ Hi) in His.
    destruct (check_input_section_nodata_int _ _ _ _ z His)
      as (t2' & inp' & His' & Hnd').
    exists t2', {[ "input" := VDict inp' ]}.
    set (user_cfg' := <["input" := VDict (<["nodata_right" := VInt z]> i)]> user_cfg).
    assert (Hp' : user_cfg' !! "pipeline" = Some (VDict p)).
    { unfold user_cfg'. by rewrite lookup_insert_ne. }
    assert (Hi' : user_cfg' !! "input"
                  = Some (VDict (<["nodata_right" := VInt z]> i))).
    { apply lookup_insert_eq. }
    rewrite (check_conf_proceeds _ p _ Hp' Hi')
      by (by rewrite has_all_disparities_insert_nodata).
    fold flag.
    assert (Hps' : check_pipeline_section (get_config_pipeline user_cfg')
                   = (t1, Return cfg_pipeline)).
    { unfold user_cfg'. by rewrite get_config_pipeline_insert. }
    assert (His'' : check_input_section (get_config_input user_cfg') flag
                    = (t2', Return {[ "input" := VDict inp' ]})).
    { unfold user_cfg'. by rewrite get_config_input_insert. }
    rewrite (check_sections_checked _ _ _ _ _ _ Hps' His'').
    by rewrite (nodata_mismatch_not_float _ _ inp' (VInt z)
                  (lookup_singleton_eq _ _) Hnd' eq_refl).
Qed.

(** ** Further properties of the checker *)

(** *** The defaults of the input section *)

Lemma default_input_leaf k v : default_input !! k = Some v → is_mapping v = false.
Proof.
  unfold default_input. intros H.
  repeat (apply lookup_insert_Some in H as [[_ <-]|[_ H]]; [done|]).
  by apply lookup_singleton_Some in H as [_ <-].
Qed.

Lemma default_input_disp k : k ∈ disp_keys → default_input !! k = Some np_nan.
Proof.
  intros Hk.
  repeat (apply elem_of_cons in Hk as [->|Hk]; [done|]).
  by apply elem_of_nil in Hk.
Qed.

Lemma dom_default_input : dom default_input ⊆ input_keys.
Proof.
  intros k [v Hk]%elem_of_dom. unfold default_input in Hk.
  unfold input_keys. apply elem_of_list_to_set.
  repeat (apply lookup_insert_Some in Hk as [[<- _]|[_ Hk]];
          [repeat constructor|]).
  apply lookup_singleton_Some in Hk as [<- _]. repeat constructor.
Qed.

(** No default is a dictionary, so a value of the user replaces the
    default whole: the merge of the input section is a union in which
    the user wins. *)
Lemma update_conf_default_input (i : conf) :
  update_conf default_input i = i ∪ default_input.
Proof.
  apply map_eq. intros k. rewrite lookup_update_conf.
  destruct (i !! k) as [uv|] eqn:Hi.
  - rewrite (lookup_union_Some_l _ _ _ _ Hi).
    destruct (default_input !! k) as [dv|] eqn:Hd; simpl; [|done].
    f_equal. apply merge_value_leaf_l. by eapply default_input_leaf.
  - by rewrite (lookup_union_r _ _ _ Hi).
Qed.

Lemma merged_input_union (i : conf) :
  update_conf default_short_configuration_input {[ "input" := VDict i ]}
  = {[ "input" := VDict (i ∪ default_input) ]}.
Proof. by rewrite merged_input_section, update_conf_default_input. Qed.

Lemma merged_input_not_dict v :
  is_mapping v = false →
  update_conf default_short_configuration_input {[ "input" := v ]}
  = {[ "input" := v ]}.
Proof.
  intros Hv. apply map_eq. intros k. rewrite lookup_update_conf.
  unfold default_short_configuration_input.
  destruct (decide (k = "input")) as [->|Hk].
  - rewrite !lookup_singleton_eq. unfold overlay.
    by rewrite merge_value_leaf_r.
  - by rewrite !lookup_singleton_ne.
Qed.

Lemma lookup_union_default_disp (i : conf) k :
  k ∈ disp_keys →
  (i ∪ default_input) !! k = Some (default np_nan (i !! k)).
Proof.
  intros Hk. destruct (i !! k) as [v|] eqn:Hi; simpl.
  - by apply lookup_union_Some_l.
  - by rewrite (lookup_union_r _ _ _ Hi), (default_input_disp k Hk).
Qed.

Lemma has_all_disparities_merged (i : conf) :
  has_all_disparities (i ∪ default_input) = true.
Proof.
  apply has_all_disparities_true. intros k Hk.
  rewrite (lookup_union_default_disp i k Hk). by eexists.
Qed.

(** *** [check_conf], whatever the sections are *)

Lemma check_conf_unfold user_cfg :
  check_conf user_cfg
  = match user_cfg !! "pipeline" with
    | None => ([], Raise (KeyError "pipeline"))
    | Some pv =>
        match py_in "estimation" pv with
        | Return flag_estim =>
            match user_cfg !! "input" with
            | None => ([], Raise (KeyError "input"))
            | Some iv =>
                match py_issubset disp_keys iv with
                | Return all_disp =>
                    if xorb flag_estim all_disp
                    then check_sections user_cfg flag_estim
                    else ([LogError exclusivity_msg], SysExit 1)
                | Raise e => ([], Raise e)
                | SysExit n => ([], SysExit n)
                end
            end
        | Raise e => ([], Raise e)
        | SysExit n => ([], SysExit n)
        end
    end.
Proof.
  unfold check_conf, conf_getitem.
  destruct (user_cfg !! "pipeline") as [pv|]; [|done].
  rewrite bind_lift_return.
  destruct (py_in "estimation" pv) as [flag|e|n]; [|done..].
  rewrite bind_lift_return.
  destruct (user_cfg !! "input") as [iv|]; [|done].
  rewrite bind_lift_return.
  destruct (py_issubset disp_keys iv) as [all|e|n]; [|done..].
  rewrite bind_lift_return. by destruct (xorb flag all).
Qed.

Lemma py_in_no_exit k v n : py_in k v ≠ SysExit n.
Proof. by destruct v. Qed.

Lemma py_issubset_no_exit ks v n : py_issubset ks v ≠ SysExit n.
Proof. by destruct v. Qed.

Lemma py_issubset_disp_keys_dict (m : conf) :
  py_issubset disp_keys (VDict m) = Return (has_all_disparities m).
Proof. reflexivity. Qed.

Lemma py_issubset_disp_keys_str s : py_issubset disp_keys (VStr s) = Return false.
Proof. reflexivity. Qed.

(** A run of [check_sections] that returns went through the two section
    checkers and the test on [nodata_right]. *)
Lemma check_sections_return user_cfg flag t cfg :
  check_sections user_cfg flag = (t, Return cfg) →
  ∃ t1 cfg_pipeline t2 cfg_input,
    check_pipeline_section (get_config_pipeline user_cfg) = (t1, Return cfg_pipeline)
    ∧ check_input_section (get_config_input user_cfg) flag = (t2, Return cfg_input)
    ∧ nodata_mismatch cfg_input cfg_pipeline = ret false
    ∧ t = t1 ++ t2
    ∧ cfg = concat_conf [cfg_input; cfg_pipeline].
Proof.
  intros Hrun.
  destruct (check_pipeline_section (get_config_pipeline user_cfg))
    as [t1 [cfgp|e|n]] eqn:Hps; cycle 1.
  { by rewrite (check_sections_pipeline_failure _ _ _ _ _ Hps (same_raise e))
      in Hrun. }
  { by rewrite (check_sections_pipeline_failure _ _ _ _ _ Hps (same_exit n))
      in Hrun. }
  destruct (check_input_section (get_config_input user_cfg) flag)
    as [t2 [cfgi|e|n]] eqn:His; cycle 1.
  { by rewrite (check_sections_input_failure _ _ _ _ _ _ _ Hps His
                  (same_raise e)) in Hrun. }
  { by rewrite (check_sections_input_failure _ _ _ _ _ _ _ Hps His
                  (same_exit n)) in Hrun. }
  rewrite (check_sections_checked _ _ _ _ _ _ Hps His) in Hrun.
  pose proof (nodata_mismatch_trace cfgi cfgp) as Ht.
  destruct (nodata_mismatch cfgi cfgp) as [tm [[]|e|n]] eqn:Hm;
    simpl in *; try done.
  subst tm. injection Hrun as <- <-.
  by exists t1, cfgp, t2, cfgi.
Qed.

Lemma check_input_section_not_dict v flag :
  is_mapping v = false →
  check_input_section {[ "input" := v ]} flag
  = ([Validate (input_schema_id flag) {[ "input" := v ]}], Raise CheckerError).
Proof.
  intros Hv.
  rewrite (check_input_section_invalid {[ "input" := v ]} flag);
    rewrite (merged_input_not_dict v Hv); [done|].
  destruct (conforms _ _) eqn:Hc; [|done].
  apply input_section_conforms in Hc as (inp & Hin & _).
  rewrite lookup_singleton_eq in Hin. injection Hin as ->. done.
Qed.

(** A run of [check_conf] that returns, on a pipeline section that is a
    dictionary: the input section is a dictionary too, exactly one side
    of the exclusivity rule holds and [check_sections] returned. *)
Lemma check_conf_return user_cfg p t cfg :
  user_cfg !! "pipeline" = Some (VDict p) →
  check_conf user_cfg = (t, Return cfg) →
  ∃ i, user_cfg !! "input" = Some (VDict i)
       ∧ xorb (has_estimation p) (has_all_disparities i) = true
       ∧ check_sections user_cfg (has_estimation p) = (t, Return cfg).
Proof.
  intros Hp. rewrite check_conf_unfold, Hp. simpl.
  fold (has_estimation p).
  destruct (user_cfg !! "input") as [iv|] eqn:Hi; [|done].
  destruct iv as [b|z|f|s|i]; try done.
  - rewrite py_issubset_disp_keys_str.
    destruct (xorb _ _); [|done]. intros Hrun.
    apply check_sections_return in Hrun
      as (t1 & cfgp & t2 & cfgi & _ & His & _).
    rewrite (get_config_input_dict _ _ Hi) in His.
    by rewrite check_input_section_not_dict in His.
  - simpl. fold (has_all_disparities i).
    destruct (xorb _ _) eqn:Hx; [|done]. intros Hrun. by exists i.
Qed.

Local Abbreviation valid_fields := (valid_fields rasterio_can_open_mandatory).

Ltac in_disp_keys := unfold disp_keys; repeat constructor.

Lemma concat_conf_pair (a b : conf) : concat_conf [a; b] = b ∪ a.
Proof. unfold concat_conf. simpl. by rewrite (right_id_L ∅ (∪)). Qed.

(** *** The disparity bounds *)

Lemma input_schema_disp flag (inp : conf) k :
  conforms (input_schema_of rasterio_can_open_mandatory flag) (VDict inp) = true →
  k ∈ disp_keys → ∃ v, inp !! k = Some v ∧ disp_ok flag v.
Proof.
  intros Hc Hk.
  apply input_schema_conforms in Hc
    as [(l & r & nl & nr & a & b & c & d & _ & _ & _ & _
         & Ha & Hb & Hc' & Hd & _ & _ & _ & _ & Da & Db & Dc & Dd) _].
  repeat (apply elem_of_cons in Hk as [->|Hk]; [by eexists|]).
  by apply elem_of_nil in Hk.
Qed.

Lemma has_all_disparities_missing (i : conf) :
  has_all_disparities i = false → ∃ k, k ∈ disp_keys ∧ i !! k = None.
Proof.
  intros H.
  destruct (i !! "disp_min_col") eqn:H1;
    [|exists "disp_min_col"; split; [in_disp_keys|done]].
  destruct (i !! "disp_max_col") eqn:H2;
    [|exists "disp_max_col"; split; [in_disp_keys|done]].
  destruct (i !! "disp_min_row") eqn:H3;
    [|exists "disp_min_row"; split; [in_disp_keys|done]].
  destruct (i !! "disp_max_row") eqn:H4;
    [|exists "disp_max_row"; split; [in_disp_keys|done]].
  assert (Ht : has_all_disparities i = true); [|congruence].
  apply has_all_disparities_true. intros k Hk.
  repeat (apply elem_of_cons in Hk as [->|Hk]; [by eexists|]).
  by apply elem_of_nil in Hk.
Qed.

(** The validated input section of a run of [check_conf] that returns. *)
Lemma check_sections_input_conforms user_cfg (i : conf) flag t cfg :
  user_cfg !! "input" = Some (VDict i) →
  check_sections user_cfg flag = (t, Return cfg) →
  conforms (input_schema_of rasterio_can_open_mandatory flag)
    (VDict (i ∪ default_input)) = true.
Proof.
  intros Hi Hrun.
  apply check_sections_return in Hrun as (t1 & cfgp & t2 & cfgi & _ & His & _).
  rewrite (get_config_input_dict _ _ Hi) in His.
  apply check_input_section_return in His. cbv zeta in His.
  destruct His as (_ & Hc & _).
  rewrite merged_input_union in Hc. by apply input_section_conforms_iff in Hc.
Qed.

(** X1. [check_conf] reads the user configuration through its [input]
    and [pipeline] entries only: two configurations that agree on these
    two entries give the same run, events and outcome, whatever other
    sections they hold. *)
Theorem check_conf_reads_two_sections user_cfg user_cfg' :
  user_cfg !! "pipeline" = user_cfg' !! "pipeline" →
  user_cfg !! "input" = user_cfg' !! "input" →
  check_conf user_cfg = check_conf user_cfg'.
Proof.
  intros Hp Hi.
  assert (Hs : ∀ flag, check_sections user_cfg flag = check_sections user_cfg' flag).
  { intros flag.
    unfold check_sections, get_config_pipeline, get_config_input, get_section.
    by rewrite Hp, Hi. }
  rewrite !check_conf_unfold, Hp, Hi.
  destruct (user_cfg' !! "pipeline") as [pv|]; [|done].
  destruct (py_in "estimation" pv) as [flag| |]; [|done..].
  destruct (user_cfg' !! "input") as [iv|]; [|done].
  destruct (py_issubset disp_keys iv) as [all| |]; [|done..].
  by rewrite Hs.
Qed.

(** X2. In a configuration that [check_conf] accepts, the disparity
    bounds agree with the pipeline. With an [estimation] step the user
    left out at least one of the four bounds, and a bound that is given
    is NaN; without one the user gave the four bounds, each an
    integer. *)
Theorem accepted_bounds user_cfg p t cfg :
  user_cfg !! "pipeline" = Some (VDict p) →
  check_conf user_cfg = (t, Return cfg) →
  ∃ i, user_cfg !! "input" = Some (VDict i)
       ∧ if has_estimation p
         then (∃ k, k ∈ disp_keys ∧ i !! k = None)
              ∧ ∀ k, k ∈ disp_keys → i !! k = None ∨ i !! k = Some np_nan
         else ∀ k, k ∈ disp_keys → ∃ z, i !! k = Some (VInt z).
Proof.
  intros Hp Hrun.
  destruct (check_conf_return _ _ _ _ Hp Hrun) as (i & Hi & Hx & Hsec).
  exists i. split; [done|].
  pose proof (check_sections_input_conforms _ _ _ _ _ Hi Hsec) as Hc.
  destruct (has_estimation p); simpl in Hx.
  - apply negb_true_iff in Hx. split; [by apply has_all_disparities_missing|].
    intros k Hk.
    destruct (input_schema_disp _ _ k Hc Hk) as (v & Hv & Hok).
    rewrite (lookup_union_default_disp i k Hk) in Hv.
    destruct (i !! k) as [x|]; [right|by left].
    simpl in *. congruence.
  - intros k Hk.
    destruct (proj1 (has_all_disparities_true i) Hx k Hk) as [x Hx'].
    destruct (input_schema_disp _ _ k Hc Hk) as (v & Hv & [z ->]).
    rewrite (lookup_union_Some_l _ _ _ _ Hx') in Hv. exists z. congruence.
Qed.

(** *** The pipeline section *)

Lemma check_pipeline_section_unfold user_cfg :
  check_pipeline_section user_cfg
  = match user_cfg !! "pipeline" with
    | None => ([], Raise (KeyError "pipeline"))
    | Some pv =>
        match machine_check_conf pv with
        | Return pipeline_cfg =>
            let cfg := update_conf user_cfg pipeline_cfg in
            ([MachineCheck pv; Validate PipelineSchema cfg],
             if conforms pipeline_section_schema (VDict cfg) then Return cfg
             else Raise CheckerError)
        | Raise e => ([MachineCheck pv], Raise e)
        | SysExit n => ([MachineCheck pv], SysExit n)
        end
    end.
Proof.
  unfold check_pipeline_section. rewrite update_conf_empty_l.
  unfold conf_getitem.
  destruct (user_cfg !! "pipeline") as [pv|]; [|done].
  rewrite bind_lift_return, bind_emit.
  destruct (machine_check_conf pv) as [pc|e|n]; try done.
  rewrite bind_lift_return. cbv zeta. rewrite bind_emit.
  unfold checker_validate.
  by destruct (conforms _ _).
Qed.

(** The [pipeline] entry after the merge of the configuration of the
    state machine over the one of the user. *)
Lemma lookup_pipeline_merged (user_cfg pipeline_cfg : conf) pv :
  user_cfg !! "pipeline" = Some pv →
  update_conf user_cfg pipeline_cfg !! "pipeline"
  = Some (match pipeline_cfg !! "pipeline" with
          | Some v => merge_value pv v
          | None => pv
          end).
Proof.
  intros Hp. rewrite lookup_update_conf, Hp.
  by destruct (pipeline_cfg !! "pipeline").
Qed.

Lemma pipeline_section_result (user_cfg pipeline_cfg p : conf) :
  user_cfg !! "pipeline" = Some (VDict p) →
  conforms pipeline_section_schema (VDict (update_conf user_cfg pipeline_cfg)) = true →
  ∃ pl, update_conf user_cfg pipeline_cfg !! "pipeline" = Some (VDict pl)
        ∧ pl = match pipeline_cfg !! "pipeline" with
               | Some (VDict m) => update_conf p m
               | _ => p
               end
        ∧ dom p ⊆ dom pl.
Proof.
  intros Hp (pl & Hpl)%pipeline_section_is_dict. exists pl. split; [done|].
  rewrite (lookup_pipeline_merged _ _ _ Hp) in Hpl.
  destruct (pipeline_cfg !! "pipeline") as [[| | | |m]|]; try done.
  - rewrite merge_value_dict in Hpl. injection Hpl as <-.
    split; [done|]. rewrite dom_update_conf. apply union_subseteq_l.
  - by injection Hpl as <-.
Qed.

(** The two validated sections behind a result of [check_conf]. *)
Lemma check_conf_return_sections user_cfg p t cfg :
  user_cfg !! "pipeline" = Some (VDict p) →
  check_conf user_cfg = (t, Return cfg) →
  ∃ i pipeline_cfg,
    user_cfg !! "input" = Some (VDict i)
    ∧ xorb (has_estimation p) (has_all_disparities i) = true
    ∧ machine_check_conf (VDict p) = Return pipeline_cfg
    ∧ conforms pipeline_section_schema
        (VDict (update_conf {[ "pipeline" := VDict p ]} pipeline_cfg)) = true
    ∧ cfg = update_conf {[ "pipeline" := VDict p ]} pipeline_cfg
            ∪ {[ "input" := VDict (i ∪ default_input) ]}.
Proof.
  intros Hp Hrun.
  destruct (check_conf_return _ _ _ _ Hp Hrun) as (i & Hi & Hx & Hsec).
  apply check_sections_return in Hsec
    as (t1 & cfgp & t2 & cfgi & Hps & His & _ & _ & ->).
  apply (check_pipeline_section_return _ (VDict p)) in Hps
    as (pc & Hm & -> & Hc & _); [|done].
  rewrite (get_config_input_dict _ _ Hi) in His.
  apply check_input_section_return in His. cbv zeta in His.
  destruct His as (-> & _). rewrite merged_input_union.
  exists i, pc. by rewrite concat_conf_pair.
Qed.

(** X3. The configuration that [check_conf] returns is the validated
    pipeline section laid over the completed input section. Its
    [pipeline] entry is a dictionary that keeps every step of the user;
    its [input] entry is the input section of the user completed by the
    defaults, unless the state machine returned an [input] entry of its
    own, which then wins; every other section of the user is dropped:
    an entry under another key comes from the state machine. *)
Theorem check_conf_result user_cfg p t cfg :
  user_cfg !! "pipeline" = Some (VDict p) →
  check_conf user_cfg = (t, Return cfg) →
  ∃ i pipeline_cfg pl,
    user_cfg !! "input" = Some (VDict i)
    ∧ machine_check_conf (VDict p) = Return pipeline_cfg
    ∧ cfg !! "pipeline" = Some (VDict pl) ∧ dom p ⊆ dom pl
    ∧ cfg !! "input"
      = Some (default (VDict (i ∪ default_input)) (pipeline_cfg !! "input"))
    ∧ ∀ k, k ≠ "input" → k ≠ "pipeline" → cfg !! k = pipeline_cfg !! k.
Proof.
  intros Hp Hrun.
  destruct (check_conf_return_sections _ _ _ _ Hp Hrun)
    as (i & pc & Hi & _ & Hm & Hc & ->).
  destruct (pipeline_section_result {[ "pipeline" := VDict p ]} pc p
              (lookup_singleton_eq _ _) Hc) as (pl & Hpl & _ & Hdom).
  exists i, pc, pl. do 2 (split; [done|]).
  split; [by apply lookup_union_Some_l|]. split; [done|].
  assert (Hother : ∀ k, k ≠ "pipeline" →
            update_conf {[ "pipeline" := VDict p ]} pc !! k = pc !! k).
  { intros k Hk. rewrite lookup_update_conf, lookup_singleton_ne by done.
    by destruct (pc !! k). }
  split.
  - destruct (pc !! "input") as [v|] eqn:Hv; simpl.
    + apply lookup_union_Some_l. by rewrite Hother.
    + rewrite lookup_union_r by (by rewrite Hother).
      apply lookup_singleton_eq.
  - intros k Hin Hpk.
    destruct (pc !! k) as [v|] eqn:Hv.
    + apply lookup_union_Some_l. by rewrite Hother.
    + rewrite lookup_union_r by (by rewrite Hother).
      by apply lookup_singleton_ne.
Qed.

(** X4. [check_conf] does not accept its own result when the pipeline
    has an [estimation] step: the defaults have filled the four
    disparity bounds of the returned input section with NaN, so on the
    returned configuration both sides of the exclusivity rule hold and
    the run logs the exclusivity error and exits with status 1. *)
Theorem estimation_result_rejected user_cfg p t cfg pipeline_cfg :
  user_cfg !! "pipeline" = Some (VDict p) →
  has_estimation p = true →
  machine_check_conf (VDict p) = Return pipeline_cfg →
  pipeline_cfg !! "input" = None →
  check_conf user_cfg = (t, Return cfg) →
  check_conf cfg = ([LogError exclusivity_msg], SysExit 1).
Proof.
  intros Hp He Hm Hnone Hrun.
  destruct (check_conf_return_sections _ _ _ _ Hp Hrun)
    as (i & pc & Hi & _ & Hm' & Hc & ->).
  rewrite Hm in Hm'. injection Hm' as <-.
  destruct (pipeline_section_result {[ "pipeline" := VDict p ]} pipeline_cfg p
              (lookup_singleton_eq _ _) Hc) as (pl & Hpl & _ & Hdom).
  apply (check_conf_rejects _ pl (i ∪ default_input)).
  - by apply lookup_union_Some_l.
  - rewrite lookup_union_r; [apply lookup_singleton_eq|].
    rewrite lookup_update_conf, lookup_singleton_ne by done.
    by rewrite Hnone.
  - rewrite has_all_disparities_merged.
    unfold has_estimation in *. apply bool_decide_eq_true in He.
    rewrite bool_decide_eq_true_2; [done|]. by apply Hdom.
Qed.

(** X5. [check_pipeline_section] returns the configuration of the state
    machine merged over the section of the user. The merged [pipeline]
    entry is a dictionary that has every step of the user; a step that
    the state machine does not mention is kept as the user wrote it, and
    when the state machine returns no [pipeline] entry the one of the
    user is returned unchanged. The state machine has been called once,
    on the pipeline of the user, before the schema was checked. *)
Theorem check_pipeline_section_result user_cfg p t cfg :
  user_cfg !! "pipeline" = Some (VDict p) →
  check_pipeline_section user_cfg = (t, Return cfg) →
  ∃ pipeline_cfg pl,
    machine_check_conf (VDict p) = Return pipeline_cfg
    ∧ cfg = update_conf user_cfg pipeline_cfg
    ∧ t = [MachineCheck (VDict p); Validate PipelineSchema cfg]
    ∧ cfg !! "pipeline" = Some (VDict pl)
    ∧ dom p ⊆ dom pl
    ∧ (pipeline_cfg !! "pipeline" = None → pl = p)
    ∧ (∀ m k, pipeline_cfg !! "pipeline" = Some (VDict m) →
              m !! k = None → pl !! k = p !! k).
Proof.
  intros Hp. rewrite check_pipeline_section_unfold, Hp.
  destruct (machine_check_conf (VDict p)) as [pc|e|n]; try done.
  cbv zeta. destruct (conforms _ _) eqn:Hc; [|done].
  intros [= <- <-].
  destruct (pipeline_section_result _ _ _ Hp Hc) as (pl & Hpl & Heq & Hdom).
  exists pc, pl. do 5 (split; [done|]). split.
  - intros Hnone. by rewrite Hnone in Heq.
  - intros m k Hm Hk. rewrite Hm in Heq. subst pl.
    by apply lookup_update_conf_default.
Qed.

(** X6. The failures of [check_pipeline_section]. Without a [pipeline]
    entry the run raises [KeyError] and the state machine is not called.
    A failure of the state machine is the outcome of the run, and no
    schema is checked. When the state machine returns a [pipeline] entry
    that is not a dictionary, that entry replaces the one of the user
    and the run raises the error of the schema checker. *)
Theorem check_pipeline_section_failures user_cfg :
  (user_cfg !! "pipeline" = None →
     check_pipeline_section user_cfg = ([], Raise (KeyError "pipeline")))
  ∧ (∀ pv r r',
       user_cfg !! "pipeline" = Some pv →
       machine_check_conf pv = r → same_failure r r' →
       check_pipeline_section user_cfg = ([MachineCheck pv], r'))
  ∧ (∀ pv pipeline_cfg v,
       user_cfg !! "pipeline" = Some pv →
       machine_check_conf pv = Return pipeline_cfg →
       pipeline_cfg !! "pipeline" = Some v → is_mapping v = false →
       check_pipeline_section user_cfg
       = ([MachineCheck pv;
           Validate PipelineSchema (update_conf user_cfg pipeline_cfg)],
          Raise CheckerError)).
Proof.
  rewrite check_pipeline_section_unfold. split; [|split].
  - by intros ->.
  - intros pv r r' -> <- Hf. by destruct Hf.
  - intros pv pc v Hp Hm Hv Hleaf. rewrite Hp, Hm. cbv zeta.
    destruct (conforms _ _) eqn:Hc; [exfalso|done].
    apply pipeline_section_is_dict in Hc as (pl & Hpl).
    rewrite (lookup_pipeline_merged _ _ _ Hp), Hv in Hpl.
    rewrite (merge_value_leaf_r _ _ Hleaf) in Hpl.
    injection Hpl as ->. done.
Qed.

(** *** The rule on [nodata_right] *)

Lemma in_sad_ssd_true method :
  in_sad_ssd method = true ↔ method = VStr "sad" ∨ method = VStr "ssd".
Proof.
  destruct method as [| | |s|]; simpl;
    try (split; [done|by intros [?|?]]).
  rewrite orb_true_iff, !bool_decide_eq_true.
  split; (intros [H|H]; [left|right]); congruence.
Qed.

Lemma nodata_mismatch_no_method (cfg_input cfg_pipeline inp pl mc : conf) f :
  cfg_input !! "input" = Some (VDict inp) →
  inp !! "nodata_right" = Some (VFloat f) →
  cfg_pipeline !! "pipeline" = Some (VDict pl) →
  pl !! "matching_cost" = Some (VDict mc) →
  mc !! "matching_cost_method" = None →
  nodata_mismatch cfg_input cfg_pipeline = raise (KeyError "matching_cost_method").
Proof.
  intros Hi Hn Hp Hm Hmm. unfold nodata_mismatch, conf_getitem, getitem.
  rewrite Hi, bind_lift_return, Hn, bind_lift_return. simpl.
  by rewrite Hp, Hm, Hmm.
Qed.

Lemma nodata_mismatch_step_not_dict (cfg_input cfg_pipeline inp pl : conf) f v :
  cfg_input !! "input" = Some (VDict inp) →
  inp !! "nodata_right" = Some (VFloat f) →
  cfg_pipeline !! "pipeline" = Some (VDict pl) →
  pl !! "matching_cost" = Some v → is_mapping v = false →
  nodata_mismatch cfg_input cfg_pipeline = raise TypeError.
Proof.
  intros Hi Hn Hp Hm Hv. unfold nodata_mismatch, conf_getitem, getitem.
  rewrite Hi, bind_lift_return, Hn, bind_lift_return. simpl.
  rewrite Hp, Hm. by destruct v.
Qed.


(** The [nodata_right] that the test of [check_conf] reads is the one of
    the user. *)
Lemma validated_nodata_right user_cfg (i : conf) flag t2 cfg_input v :
  user_cfg !! "input" = Some (VDict i) →
  check_input_section (get_config_input user_cfg) flag = (t2, Return cfg_input) →
  i !! "nodata_right" = Some v →
  cfg_input !! "input" = Some (VDict (i ∪ default_input))
  ∧ (i ∪ default_input) !! "nodata_right" = Some v.
Proof.
  intros Hi His Hv. rewrite (get_config_input_dict _ _ Hi) in His.
  apply check_input_section_return in His. cbv zeta in His.
  destruct His as (-> & _). rewrite merged_input_union.
  split; [apply lookup_singleton_eq|by apply lookup_union_Some_l].
Qed.

(** X7. The rule on [nodata_right] is about the two methods [sad] and
    [ssd] only. Once both sections are validated, with a float
    [nodata_right] and a [matching_cost] step that names its method, the
    run exits with status 1 exactly when the method is the string [sad]
    or the string [ssd]; with any other method it returns the
    concatenated configuration. *)
Theorem nodata_rule_methods user_cfg p i t1 cfg_pipeline t2 cfg_input
    (pl mc : conf) f method :
  user_cfg !! "pipeline" = Some (VDict p) →
  user_cfg !! "input" = Some (VDict i) →
  xorb (has_estimation p) (has_all_disparities i) = true →
  check_pipeline_section (get_config_pipeline user_cfg) = (t1, Return cfg_pipeline) →
  check_input_section (get_config_input user_cfg) (has_estimation p)
  = (t2, Return cfg_input) →
  i !! "nodata_right" = Some (VFloat f) →
  cfg_pipeline !! "pipeline" = Some (VDict pl) →
  pl !! "matching_cost" = Some (VDict mc) →
  mc !! "matching_cost_method" = Some method →
  (method = VStr "sad" ∨ method = VStr "ssd" →
     check_conf user_cfg = (t1 ++ t2 ++ [LogError nodata_msg], SysExit 1))
  ∧ (method ≠ VStr "sad" → method ≠ VStr "ssd" →
     check_conf user_cfg
     = (t1 ++ t2, Return (concat_conf [cfg_input; cfg_pipeline]))).
Proof.
  intros Hp Hi Hx Hps His Hf Hpl Hmc Hm.
  destruct (validated_nodata_right _ _ _ _ _ _ Hi His Hf) as [Hin Hnd].
  rewrite (check_conf_proceeds _ p i Hp Hi Hx).
  rewrite (check_sections_checked _ _ _ _ _ _ Hps His).
  rewrite (nodata_mismatch_method _ _ _ pl mc f method Hin Hnd Hpl Hmc Hm).
  simpl. split.
  - intros Hsad. apply in_sad_ssd_true in Hsad. by rewrite Hsad.
  - intros H1 H2. destruct (in_sad_ssd method) eqn:E; [|done].
    apply in_sad_ssd_true in E as [?|?]; done.
Qed.

(** X8. The lookups of the test on [nodata_right] fail as Python
    lookups do. Once both sections are validated, with a float
    [nodata_right]: a [matching_cost] step without a
    [matching_cost_method] makes the run raise [KeyError] on that key,
    and a [matching_cost] entry that is not a dictionary makes it raise
    [TypeError]. In both cases nothing is logged and the run does not
    exit. *)
Theorem nodata_rule_lookup_errors user_cfg p i t1 cfg_pipeline t2 cfg_input
    (pl : conf) f :
  user_cfg !! "pipeline" = Some (VDict p) →
  user_cfg !! "input" = Some (VDict i) →
  xorb (has_estimation p) (has_all_disparities i) = true →
  check_pipeline_section (get_config_pipeline user_cfg) = (t1, Return cfg_pipeline) →
  check_input_section (get_config_input user_cfg) (has_estimation p)
  = (t2, Return cfg_input) →
  i !! "nodata_right" = Some (VFloat f) →
  cfg_pipeline !! "pipeline" = Some (VDict pl) →
  (∀ mc : conf,
     pl !! "matching_cost" = Some (VDict mc) →
     mc !! "matching_cost_method" = None →
     check_conf user_cfg = (t1 ++ t2, Raise (KeyError "matching_cost_method")))
  ∧ (∀ v,
       pl !! "matching_cost" = Some v → is_mapping v = false →
       check_conf user_cfg = (t1 ++ t2, Raise TypeError)).
Proof.
  intros Hp Hi Hx Hps His Hf Hpl.
  destruct (validated_nodata_right _ _ _ _ _ _ Hi His Hf) as [Hin Hnd].
  rewrite (check_conf_proceeds _ p i Hp Hi Hx).
  rewrite (check_sections_checked _ _ _ _ _ _ Hps His).
  split.
  - intros mc Hmc Hnone.
    by rewrite (nodata_mismatch_no_method _ _ _ pl mc f Hin Hnd Hpl Hmc Hnone).
  - intros v Hv Hleaf.
    by rewrite (nodata_mismatch_step_not_dict _ _ _ pl f v Hin Hnd Hpl Hv Hleaf).
Qed.

(** *** The first event of a run *)

Lemma bind_trace_prefix {A B} (c : run A) (k : A → run B) :
  ∃ t', fst (bind c k) = fst c ++ t'.
Proof.
  destruct c as [t [a| |]]; simpl; try (exists []; by rewrite app_nil_r).
  destruct (k a) as [t' r]. by exists t'.
Qed.

Lemma check_sections_first_event user_cfg flag pv :
  user_cfg !! "pipeline" = Some pv →
  ∃ t', fst (check_sections user_cfg flag) = MachineCheck pv :: t'.
Proof.
  intros Hp. unfold check_sections.
  match goal with
  | |- context [fst (bind ?c ?k)] => destruct (bind_trace_prefix c k) as [t' ->]
  end.
  destruct (check_pipeline_section (get_config_pipeline user_cfg)) as [t1 r1] eqn:Hps.
  apply (check_pipeline_section_first_event _ pv) in Hps as [t1' ->]; [|done].
  by eexists.
Qed.

Lemma py_in_raises k v e : py_in k v = Raise e → is_number v = true ∧ e = TypeError.
Proof. destruct v; simpl; try done; by intros [= <-]. Qed.

Lemma py_issubset_raises ks v e :
  py_issubset ks v = Raise e → is_number v = true ∧ e = TypeError.
Proof. destruct v; simpl; try done; by intros [= <-]. Qed.

(** X9. How a run of [check_conf] starts. A run without any event is a
    failed lookup in the user configuration: [KeyError] for a missing
    [pipeline] or [input] entry, [TypeError] for an entry that is a
    number. Otherwise the first event is the log of the exclusivity
    rule, or the call of the state machine on the [pipeline] entry of
    the user: no schema is checked and pandora is not called before the
    state machine has seen the pipeline. *)
Theorem check_conf_first_event user_cfg t r :
  check_conf user_cfg = (t, r) →
  match t with
  | [] =>
      (user_cfg !! "pipeline" = None ∧ r = Raise (KeyError "pipeline"))
      ∨ (is_Some (user_cfg !! "pipeline") ∧ user_cfg !! "input" = None
         ∧ r = Raise (KeyError "input"))
      ∨ (∃ pv, user_cfg !! "pipeline" = Some pv
               ∧ (is_number pv = true
                  ∨ ∃ iv, user_cfg !! "input" = Some iv ∧ is_number iv = true)
               ∧ r = Raise TypeError)
  | e :: _ =>
      e = LogError exclusivity_msg
      ∨ ∃ pv, user_cfg !! "pipeline" = Some pv ∧ e = MachineCheck pv
  end.
Proof.
  rewrite check_conf_unfold.
  destruct (user_cfg !! "pipeline") as [pv|] eqn:Hp; cycle 1.
  { intros [= <- <-]. by left. }
  destruct (py_in "estimation" pv) as [flag|e|n] eqn:Hin; cycle 1.
  { intros [= <- <-]. apply py_in_raises in Hin as [Hn ->].
    do 2 right. exists pv. split; [done|]. split; [by left|done]. }
  { by apply py_in_no_exit in Hin. }
  destruct (user_cfg !! "input") as [iv|] eqn:Hi; cycle 1.
  { intros [= <- <-]. right. left. by split; [eexists|]. }
  destruct (py_issubset disp_keys iv) as [all|e|n] eqn:Hsub; cycle 1.
  { intros [= <- <-]. apply py_issubset_raises in Hsub as [Hn ->].
    do 2 right. exists pv. split; [done|]. split; [right; by exists iv|done]. }
  { by apply py_issubset_no_exit in Hsub. }
  destruct (xorb flag all).
  - intros Hrun.
    destruct (check_sections_first_event user_cfg flag pv Hp) as [t' Ht].
    rewrite Hrun in Ht. simpl in Ht. subst t. right. by exists pv.
  - intros [= <- <-]. by left.
Qed.

(** *** The input section *)


Lemma input_schema_fields flag (inp : conf) :
  conforms (input_schema_of rasterio_can_open_mandatory flag) (VDict inp) = true
  ↔ (∃ f, has_fields inp f ∧ valid_fields flag f)
    ∧ (ignore_extra_keys = true ∨ dom inp ⊆ input_keys).
Proof.
  rewrite input_schema_conforms. unfold has_fields, valid_fields.
  split; intros [Hf He]; (split; [|exact He]).
  - destruct Hf as (l & r & nl & nr & a & b & c & d & Hl & Hr & Hnl & Hnr
                    & Ha & Hb & Hc & Hd & Hv).
    by exists (Build_input_fields l r nl nr a b c d).
  - destruct Hf as ([l r nl nr a b c d]
                    & (Hl & Hr & Hnl & Hnr & Ha & Hb & Hc & Hd) & Hv).
    simpl in *. by exists l, r, nl, nr, a, b, c, d.
Qed.

(** The run of [check_input_section] depends on the user configuration
    through the merged configuration only. *)
Lemma check_input_section_merged user_cfg user_cfg' flag :
  update_conf default_short_configuration_input user_cfg
  = update_conf default_short_configuration_input user_cfg' →
  check_input_section user_cfg flag = check_input_section user_cfg' flag.
Proof. intros H. unfold check_input_section. by rewrite H. Qed.

(** The outcome of the checks of pandora on the fields of a conforming
    input section. *)
Lemma check_input_section_fields user_cfg flag (inp : conf) f :
  let cfg := update_conf default_short_configuration_input user_cfg in
  conforms (input_section_schema flag) (VDict cfg) = true →
  cfg !! "input" = Some (VDict inp) →
  has_fields inp f →
  check_input_section user_cfg flag
  = (emit (Validate (input_schema_id flag) cfg) ;;;
     input_checks cfg (f_img_left f) (f_img_right f)
       (f_disp_min_col f) (f_disp_max_col f)
       (f_disp_min_row f) (f_disp_max_row f)).
Proof.
  intros cfg Hc Hin (Hl & Hr & _ & _ & Ha & Hb & Hc' & Hd).
  by apply (check_input_section_valid _ _ inp).
Qed.

Lemma dom_merged_input (i : conf) :
  dom (i ∪ default_input) ⊆ input_keys ↔ dom i ⊆ input_keys.
Proof.
  rewrite dom_union_L. split.
  - intros H. etrans; [apply union_subseteq_l|exact H].
  - intros H. apply union_least; [done|apply dom_default_input].
Qed.

Lemma has_fields_inj (inp : conf) f g : has_fields inp f → has_fields inp g → f = g.
Proof.
  destruct f, g. unfold has_fields. simpl.
  intros (? & ? & ? & ? & ? & ? & ? & ?) (? & ? & ? & ? & ? & ? & ? & ?).
  f_equal; congruence.
Qed.

(** X10. When [check_input_section] accepts an input section. The run
    returns exactly when the section of the user, completed by the six
    defaults (a value of the user replaces the default), holds the
    eight fields with the values that the schema of the variant admits,
    holds no other key unless the checker ignores extra keys, and the
    image check and the two disparity checks of pandora pass on these
    fields. The run then returns the completed section and has made
    four calls: the schema validation, the image check, the check of
    the column bounds, the check of the row bounds. *)
Theorem check_input_section_accepts (i : conf) flag t cfg :
  check_input_section {[ "input" := VDict i ]} flag = (t, Return cfg)
  ↔ ∃ f, has_fields (i ∪ default_input) f
         ∧ valid_fields flag f
         ∧ (ignore_extra_keys = true ∨ dom i ⊆ input_keys)
         ∧ check_images (f_img_left f) (f_img_right f) = Return tt
         ∧ check_disparities (f_disp_min_col f) (f_disp_max_col f) = Return tt
         ∧ check_disparities (f_disp_min_row f) (f_disp_max_row f) = Return tt
         ∧ cfg = {[ "input" := VDict (i ∪ default_input) ]}
         ∧ t = input_events (input_schema_id flag) cfg f.
Proof.
  split.
  - intros Hrun. pose proof Hrun as Hret.
    apply check_input_section_return in Hret. cbv zeta in Hret.
    rewrite merged_input_union in Hret. destruct Hret as (-> & Hc & _).
    pose proof Hc as Hs. apply input_section_conforms_iff in Hs.
    apply input_schema_fields in Hs as [(f & Hf & Hv) He].
    rewrite dom_merged_input in He.
    assert (Heq := check_input_section_fields {[ "input" := VDict i ]} flag
                     (i ∪ default_input) f).
    cbv zeta in Heq. rewrite merged_input_union in Heq.
    rewrite (Heq Hc (lookup_singleton_eq _ _) Hf), bind_emit in Hrun.
    destruct (input_checks _ _ _ _ _ _ _) as [t' r'] eqn:Hk.
    simpl in Hrun. injection Hrun as <- ->.
    apply input_checks_return in Hk as (? & ? & ? & _ & ->).
    by exists f.
  - intros (f & Hf & Hv & He & H1 & H2 & H3 & -> & ->).
    assert (Heq := check_input_section_fields {[ "input" := VDict i ]} flag
                     (i ∪ default_input) f).
    cbv zeta in Heq. rewrite merged_input_union in Heq.
    rewrite Heq; [|  |apply lookup_singleton_eq|done].
    + by rewrite bind_emit, input_checks_accept.
    + apply input_section_conforms_iff, input_schema_fields.
      split; [by exists f|]. by rewrite dom_merged_input.
Qed.

(** X11. The two images have no default. When the input section of the
    user lacks [img_left] or [img_right], and when the user gives no
    input section at all, [check_input_section] raises the error of the
    schema checker right after the validation, in both variants of the
    schema, and pandora is not called. *)
Theorem images_are_mandatory flag :
  (∀ (i : conf) k,
     k = "img_left" ∨ k = "img_right" → i !! k = None →
     check_input_section {[ "input" := VDict i ]} flag
     = ([Validate (input_schema_id flag) {[ "input" := VDict (i ∪ default_input) ]}],
        Raise CheckerError))
  ∧ check_input_section ∅ flag
    = ([Validate (input_schema_id flag) default_short_configuration_input],
       Raise CheckerError).
Proof.
  assert (Hmiss : ∀ (i : conf) k,
            k = "img_left" ∨ k = "img_right" → i !! k = None →
            conforms (input_section_schema flag)
              (VDict {[ "input" := VDict (i ∪ default_input) ]}) = false).
  { intros i k Hk Hn.
    destruct (conforms _ _) eqn:Hc; [exfalso|done].
    apply input_section_conforms_iff in Hc.
    rewrite (input_schema_missing_key flag (i ∪ default_input) k) in Hc;
      [done| |].
    - unfold input_keys. destruct Hk as [-> | ->]; set_solver.
    - apply lookup_union_None. split; [done|]. by destruct Hk as [-> | ->]. }
  split.
  - intros i k Hk Hn.
    rewrite (check_input_section_invalid {[ "input" := VDict i ]} flag);
      rewrite merged_input_union; [done|]. by apply (Hmiss i k).
  - rewrite (check_input_section_invalid ∅ flag);
      rewrite update_conf_empty_r; [done|].
    specialize (Hmiss ∅ "img_left" (or_introl eq_refl) (lookup_empty _)).
    by rewrite (left_id_L ∅ (∪)) in Hmiss.
Qed.

(** X12. The two variants of the input schema exclude each other: no
    value conforms to both [input_configuration_schema] and
    [estim_input_configuration_schema], since a disparity bound cannot
    be an integer and NaN at once. An input section is valid with an
    estimation step or without one, never in both cases. *)
Theorem input_schemas_exclusive v :
  conforms (input_configuration_schema rasterio_can_open_mandatory) v
  && conforms (estim_input_configuration_schema rasterio_can_open_mandatory) v
  = false.
Proof.
  destruct (conforms (input_configuration_schema _) v) eqn:H1; [|done].
  destruct (conforms (estim_input_configuration_schema _) v) eqn:H2; [|done].
  exfalso. destruct v as [| | | |inp]; try done.
  assert (Hk : "disp_min_col" ∈ disp_keys) by in_disp_keys.
  destruct (input_schema_disp false inp _ H1 Hk) as (v1 & Hv1 & [z ->]).
  destruct (input_schema_disp true inp _ H2 Hk) as (v2 & Hv2 & ->).
  rewrite Hv1 in Hv2. done.
Qed.

(** X13. Checking the input section twice changes nothing: the run of
    [check_input_section] on a configuration already completed by the
    defaults is the run on the configuration of the user, so a returned
    configuration is accepted again, with the same calls and the same
    result. *)
Theorem check_input_section_idempotent user_cfg flag :
  check_input_section (update_conf default_short_configuration_input user_cfg) flag
  = check_input_section user_cfg flag
  ∧ ∀ t cfg, check_input_section user_cfg flag = (t, Return cfg) →
             check_input_section cfg flag = (t, Return cfg).
Proof.
  assert (Htwice : update_conf default_short_configuration_input
                     (update_conf default_short_configuration_input user_cfg)
                   = update_conf default_short_configuration_input user_cfg).
  { apply map_eq. intros k. rewrite !lookup_update_conf.
    unfold default_short_configuration_input.
    destruct (decide (k = "input")) as [->|Hk].
    - rewrite lookup_singleton_eq. unfold overlay.
      destruct (user_cfg !! "input") as [uv|].
      + destruct uv as [| | | |i]; try done.
        rewrite !merge_value_dict, !update_conf_default_input.
        by rewrite <- (assoc_L (∪)), (idemp_L (∪)).
      + rewrite merge_value_dict, update_conf_default_input.
        by rewrite (idemp_L (∪)).
    - rewrite lookup_singleton_ne by done.
      by destruct (user_cfg !! k). }
  assert (Hsame := check_input_section_merged _ _ flag Htwice).
  split; [exact Hsame|].
  intros t cfg Hrun. pose proof Hrun as Hret.
  apply check_input_section_return in Hret. cbv zeta in Hret.
  destruct Hret as (-> & _). by rewrite Hsame.
Qed.

(** *** The two nodata values *)

Lemma has_all_disparities_insert_other (i : conf) k v :
  k ∉ disp_keys →
  has_all_disparities (<[k := v]> i) = has_all_disparities i.
Proof.
  intros Hk. apply Bool.eq_iff_eq_true. rewrite !has_all_disparities_true.
  assert (Hne : ∀ j, j ∈ disp_keys → <[k := v]> i !! j = i !! j).
  { intros j Hj. apply lookup_insert_ne. by intros ->. }
  split; intros H j Hj; specialize (H j Hj);
    by rewrite (Hne j Hj) in *.
Qed.

Lemma nodata_not_disp k : k = "nodata_left" ∨ k = "nodata_right" → k ∉ disp_keys.
Proof.
  intros [-> | ->] Hk;
    repeat (apply elem_of_cons in Hk as [?|Hk]; [done|]);
    by apply elem_of_nil in Hk.
Qed.

Lemma nodata_ok_leaf v : nodata_ok v → is_mapping v = false.
Proof. by intros [[z ->]|[->|[sgn ->]]]. Qed.

(** The test on [nodata_right] reads nothing else of the validated input
    section. *)
Lemma nodata_mismatch_ext (cfg_input cfg_input' cfg_pipeline inp inp' : conf) :
  cfg_input !! "input" = Some (VDict inp) →
  cfg_input' !! "input" = Some (VDict inp') →
  inp !! "nodata_right" = inp' !! "nodata_right" →
  nodata_mismatch cfg_input cfg_pipeline = nodata_mismatch cfg_input' cfg_pipeline.
Proof.
  intros Hi Hi' Hn. unfold nodata_mismatch, conf_getitem.
  rewrite Hi, Hi', !bind_lift_return. cbn [getitem]. by rewrite Hn.
Qed.

Lemma input_schema_fields_insert_nodata flag (inp : conf) k v :
  k = "nodata_left" ∨ k = "nodata_right" → nodata_ok v →
  conforms (input_schema_of rasterio_can_open_mandatory flag) (VDict inp) = true →
  conforms (input_schema_of rasterio_can_open_mandatory flag)
    (VDict (<[k := v]> inp)) = true.
Proof.
  intros Hk Hv. rewrite !input_schema_conforms.
  intros [(l & r & nl & nr & a & b & c & d & Hl & Hr & Hnl & Hnr & Ha & Hb
           & Hc & Hd & ? & ? & ? & ? & ? & ? & ? & ?) He].
  split.
  - destruct Hk as [-> | ->];
      [exists l, r, v, nr, a, b, c, d | exists l, r, nl, v, a, b, c, d];
      rewrite lookup_insert_eq, !lookup_insert_ne by done; done.
  - destruct He as [He|He]; [by left|right].
    rewrite dom_insert_L. apply union_least; [|done].
    apply singleton_subseteq_l. unfold input_keys.
    destruct Hk as [-> | ->]; set_solver.
Qed.

(** Setting a nodata value in an accepted input section. *)
Lemma check_input_section_set_nodata (i : conf) flag t2 cfg_input k v :
  k = "nodata_left" ∨ k = "nodata_right" → nodata_ok v →
  check_input_section {[ "input" := VDict i ]} flag = (t2, Return cfg_input) →
  ∃ t2',
    check_input_section {[ "input" := VDict (<[k := v]> i) ]} flag
    = (t2', Return {[ "input" := VDict (<[k := v]> (i ∪ default_input)) ]}).
Proof.
  intros Hk Hv Hrun. apply check_input_section_return in Hrun.
  cbv zeta in Hrun. rewrite merged_input_union in Hrun.
  destruct Hrun as (_ & Hc & inp & l & r & a & b & c & d & Hin & Hl & Hr
                    & Ha & Hb & Hc' & Hd & Him & Hd1 & Hd2 & _).
  rewrite lookup_singleton_eq in Hin. injection Hin as <-.
  set (inp' := <[k := v]> (i ∪ default_input)).
  assert (Hm : update_conf default_short_configuration_input
                 {[ "input" := VDict (<[k := v]> i) ]}
               = {[ "input" := VDict inp' ]}).
  { unfold inp'. by rewrite merged_input_union, insert_union_l. }
  assert (Hne : ∀ j, k ≠ j → inp' !! j = (i ∪ default_input) !! j).
  { intros j Hj. by apply lookup_insert_ne. }
  eexists.
  rewrite (check_input_section_valid _ _ inp' l r a b c d); rewrite ?Hm;
    try (by rewrite ?lookup_singleton_eq, ?Hne
           by (by destruct Hk as [-> | ->])).
  - rewrite bind_emit, input_checks_accept by done. done.
  - apply input_section_conforms_iff, input_schema_fields_insert_nodata;
      [done..|]. by apply input_section_conforms_iff.
Qed.

(** X14. The rule on [nodata_right] does not extend to [nodata_left]:
    in a configuration that [check_conf] accepts, [nodata_left] can be
    set to any value that the schema admits, an integer, NaN or an
    infinity, with any matching cost method, and the configuration is
    still accepted. *)
Theorem nodata_left_is_free user_cfg p i t cfg v :
  user_cfg !! "pipeline" = Some (VDict p) →
  user_cfg !! "input" = Some (VDict i) →
  check_conf user_cfg = (t, Return cfg) →
  nodata_ok v →
  ∃ t' cfg',
    check_conf (<["input" := VDict (<["nodata_left" := v]> i)]> user_cfg)
    = (t', Return cfg').
Proof.
  intros Hp Hi Hrun Hv.
  destruct (check_conf_return _ _ _ _ Hp Hrun) as (i' & Hi' & Hx & Hsec).
  rewrite Hi in Hi'. injection Hi' as <-.
  apply check_sections_return in Hsec
    as (t1 & cfgp & t2 & cfgi & Hps & His & Hmis & _ & _).
  rewrite (get_config_input_dict _ _ Hi) in His.
  destruct (check_input_section_set_nodata _ _ _ _ "nodata_left" v
              (or_introl eq_refl) Hv His) as (t2' & His').
  apply check_input_section_return in His. cbv zeta in His.
  rewrite merged_input_union in His. destruct His as (-> & _).
  set (user_cfg' := <["input" := VDict (<["nodata_left" := v]> i)]> user_cfg).
  assert (Hp' : user_cfg' !! "pipeline" = Some (VDict p)).
  { unfold user_cfg'. by rewrite lookup_insert_ne. }
  assert (Hi' : user_cfg' !! "input" = Some (VDict (<["nodata_left" := v]> i))).
  { apply lookup_insert_eq. }
  rewrite (check_conf_proceeds _ p _ Hp' Hi'); cycle 1.
  { rewrite has_all_disparities_insert_other; [done|].
    apply nodata_not_disp. by left. }
  assert (Hps' : check_pipeline_section (get_config_pipeline user_cfg')
                 = (t1, Return cfgp)).
  { unfold user_cfg'. by rewrite get_config_pipeline_insert. }
  assert (His'' : check_input_section (get_config_input user_cfg') (has_estimation p)
                  = (t2', Return {[ "input" := VDict (<["nodata_left" := v]>
                                                         (i ∪ default_input)) ]})).
  { unfold user_cfg'. by rewrite get_config_input_insert. }
  rewrite (check_sections_checked _ _ _ _ _ _ Hps' His'').
  rewrite <- (nodata_mismatch_ext {[ "input" := VDict (i ∪ default_input) ]} _ _
                (i ∪ default_input) _ (lookup_singleton_eq _ _)
                (lookup_singleton_eq _ _)); [|by rewrite lookup_insert_ne].
  rewrite Hmis. simpl. by eexists _, _.
Qed.

(** X15. A default nodata value written out is the default: when the
    user omits [nodata_left] or [nodata_right], adding the key with the
    default [-9999] to the input section leaves the run of [check_conf]
    unchanged, events and outcome: the exclusivity test counts the four
    disparity keys only. *)
Theorem explicit_nodata_default user_cfg (i : conf) k :
  user_cfg !! "input" = Some (VDict i) →
  k = "nodata_left" ∨ k = "nodata_right" →
  i !! k = None →
  check_conf (<["input" := VDict (<[k := VInt (-9999)]> i)]> user_cfg)
  = check_conf user_cfg.
Proof.
  intros Hi Hk Hn.
  set (i' := <[k := VInt (-9999)]> i).
  assert (Hd : default_input !! k = Some (VInt (-9999))).
  { by destruct Hk as [-> | ->]. }
  assert (Hm : update_conf default_short_configuration_input {[ "input" := VDict i' ]}
               = update_conf default_short_configuration_input {[ "input" := VDict i ]}).
  { rewrite !merged_input_union. do 2 f_equal. unfold i'.
    rewrite <- insert_union_l. apply insert_id.
    by rewrite (lookup_union_r _ _ _ Hn). }
  assert (Hs : ∀ flag, check_sections (<["input" := VDict i']> user_cfg) flag
                       = check_sections user_cfg flag).
  { intros flag. unfold check_sections.
    rewrite get_config_pipeline_insert, get_config_input_insert.
    rewrite (get_config_input_dict _ _ Hi).
    by rewrite (check_input_section_merged _ _ flag Hm). }
  rewrite !check_conf_unfold, lookup_insert_eq, lookup_insert_ne, Hi by done.
  destruct (user_cfg !! "pipeline") as [pv|]; [|done].
  destruct (py_in "estimation" pv) as [flag| |]; [|done..].
  rewrite !py_issubset_disp_keys_dict. unfold i' at 1.
  rewrite has_all_disparities_insert_other by by apply nodata_not_disp.
  by rewrite Hs.
Qed.

(** X16. Leaving [nodata_right] out is safe with every matching cost
    method: the default is the integer [-9999], so once both sections
    are validated the test on [nodata_right] passes without looking at
    the pipeline and [check_conf] returns. The returned input section
    holds that default. *)
Theorem default_nodata_right_passes user_cfg p i t1 cfg_pipeline t2 cfg_input :
  user_cfg !! "pipeline" = Some (VDict p) →
  user_cfg !! "input" = Some (VDict i) →
  xorb (has_estimation p) (has_all_disparities i) = true →
  check_pipeline_section (get_config_pipeline user_cfg) = (t1, Return cfg_pipeline) →
  check_input_section (get_config_input user_cfg) (has_estimation p)
  = (t2, Return cfg_input) →
  i !! "nodata_right" = None →
  check_conf user_cfg = (t1 ++ t2, Return (concat_conf [cfg_input; cfg_pipeline]))
  ∧ ∃ inp, cfg_input !! "input" = Some (VDict inp)
           ∧ inp !! "nodata_right" = Some (VInt (-9999)).
Proof.
  intros Hp Hi Hx Hps His Hn.
  assert (Hcfg : cfg_input = {[ "input" := VDict (i ∪ default_input) ]}).
  { pose proof His as Hret. rewrite (get_config_input_dict _ _ Hi) in Hret.
    apply check_input_section_return in Hret. cbv zeta in Hret.
    rewrite merged_input_union in Hret. by destruct Hret as (-> & _). }
  assert (Hin : cfg_input !! "input" = Some (VDict (i ∪ default_input))).
  { rewrite Hcfg. apply lookup_singleton_eq. }
  assert (Hnd : (i ∪ default_input) !! "nodata_right" = Some (VInt (-9999))).
  { by rewrite (lookup_union_r _ _ _ Hn). }
  split; [|by exists (i ∪ default_input)].
  rewrite (check_conf_proceeds _ p i Hp Hi Hx).
  rewrite (check_sections_checked _ _ _ _ _ _ Hps His).
  by rewrite (nodata_mismatch_not_float _ _ _ (VInt (-9999)) Hin Hnd eq_refl).
Qed.

(** *** The exits of [check_conf] *)




(** *** What a caller can rely on *)

Lemma nodata_mismatch_false (cfg_input cfg_pipeline inp pl : conf) f :
  cfg_input !! "input" = Some (VDict inp) →
  inp !! "nodata_right" = Some (VFloat f) →
  cfg_pipeline !! "pipeline" = Some (VDict pl) →
  nodata_mismatch cfg_input cfg_pipeline = ret false →
  ∃ (mc : conf) method,
    pl !! "matching_cost" = Some (VDict mc)
    ∧ mc !! "matching_cost_method" = Some method
    ∧ in_sad_ssd method = false.
Proof.
  intros Hi Hn Hp. unfold nodata_mismatch, conf_getitem.
  rewrite Hi, bind_lift_return. cbn [getitem].
  rewrite Hn, bind_lift_return. cbn [isinstance_float].
  rewrite Hp, bind_lift_return. cbn [getitem].
  destruct (pl !! "matching_cost") as [[| | | |mc]|] eqn:Hmc; try done.
  rewrite bind_lift_return. cbn [getitem].
  destruct (mc !! "matching_cost_method") as [method|] eqn:Hmeth; [|done].
  rewrite bind_lift_return. intros [= Hm]. by exists mc, method.
Qed.

(** X18. What holds of a configuration returned by [check_conf], for a
    state machine that returns no [input] entry. Its input section has
    the eight fields, with values that the schema of the variant admits:
    two images that open, two nodata values, and four disparity bounds
    that are integers, or NaN with an [estimation] step. Its pipeline
    section is a dictionary, and when [nodata_right] is a float the
    pipeline has a [matching_cost] step whose method is named and is
    neither [sad] nor [ssd]. *)
Theorem check_conf_postcondition user_cfg p t cfg pipeline_cfg :
  user_cfg !! "pipeline" = Some (VDict p) →
  machine_check_conf (VDict p) = Return pipeline_cfg →
  pipeline_cfg !! "input" = None →
  check_conf user_cfg = (t, Return cfg) →
  ∃ (inp pl : conf) f,
    cfg !! "input" = Some (VDict inp)
    ∧ has_fields inp f
    ∧ valid_fields (has_estimation p) f
    ∧ cfg !! "pipeline" = Some (VDict pl)
    ∧ (isinstance_float (f_nodata_right f) = true →
         ∃ (mc : conf) method,
           pl !! "matching_cost" = Some (VDict mc)
           ∧ mc !! "matching_cost_method" = Some method
           ∧ method ≠ VStr "sad" ∧ method ≠ VStr "ssd").
Proof.
  intros Hp Hm Hnone Hrun.
  destruct (check_conf_return _ _ _ _ Hp Hrun) as (i & Hi & Hx & Hsec).
  pose proof (check_sections_input_conforms _ _ _ _ _ Hi Hsec) as Hc.
  apply input_schema_fields in Hc as [(f & Hf & Hv) _].
  apply check_sections_return in Hsec
    as (t1 & cfgp & t2 & cfgi & Hps & His & Hmis & _ & ->).
  apply (check_pipeline_section_return _ (VDict p)) in Hps
    as (pc & Hm' & -> & Hcp & _); [|done].
  rewrite Hm in Hm'. injection Hm' as <-.
  destruct (pipeline_section_result {[ "pipeline" := VDict p ]} pipeline_cfg p
              (lookup_singleton_eq _ _) Hcp) as (pl & Hpl & _ & _).
  rewrite (get_config_input_dict _ _ Hi) in His.
  apply check_input_section_return in His. cbv zeta in His.
  rewrite merged_input_union in His. destruct His as (-> & _).
  exists (i ∪ default_input), pl, f. rewrite concat_conf_pair.
  split.
  { rewrite lookup_union_r; [apply lookup_singleton_eq|].
    rewrite lookup_update_conf, lookup_singleton_ne by done.
    by rewrite Hnone. }
  do 2 (split; [done|]). split; [by apply lookup_union_Some_l|].
  intros Hfloat.
  destruct Hf as (_ & _ & _ & Hnr & _).
  destruct (f_nodata_right f) as [| |x| |] eqn:Hx'; try done.
  destruct (nodata_mismatch_false _ _ _ pl x (lookup_singleton_eq _ _) Hnr Hpl Hmis)
    as (mc & method & Hmc & Hmeth & Hno).
  exists mc, method. do 2 (split; [done|]).
  split; intros ->; done.
Qed.
End CheckJsonProperties.

(** * The claims on sample configurations *)

Lemma run_eta {A} (c : run A) a : snd c = Return a → c = (fst c, Return a).
Proof. destruct c as [t r]. simpl. by intros ->. Qed.

Lemma make_cfg_sections input pipeline : sections_are_mappings (make_cfg input pipeline).
Proof.
  intros k v. unfold make_cfg.
  by intros [[_ <-]|[_ [_ <-]%lookup_singleton_Some]]%lookup_insert_Some.
Qed.

(** Scenario B is stopped by the exclusivity rule. *)
Lemma check_conf_exclusivity_witness :
  sections_are_mappings cfg_both
  ∧ xorb (estimation_declared cfg_both) (disparities_declared cfg_both) = false
  ∧ check_conf_sample cfg_both = ([LogError exclusivity_msg], SysExit 1).
Proof.
  split; [apply make_cfg_sections|]. split; [reflexivity|].
  exact (check_conf_exclusivity open_all checks_pass checks_pass echo_machine
           false cfg_both (make_cfg_sections _ _) eq_refl).
Defined.

(** Counterexample to C3. Scenario C, with no estimation step and two of
    the four bounds, does not pass the exclusivity test: the run logs the
    exclusivity error and exits with status 1. It does not raise the
    error of the schema checker, and no schema has been checked. *)
Lemma two_bounds_exit :
  estimation_declared cfg_two_bounds = false
  ∧ check_conf_sample cfg_two_bounds = ([LogError exclusivity_msg], SysExit 1)
  ∧ snd (check_conf_sample cfg_two_bounds) ≠ Raise CheckerError.
Proof.
  split; [reflexivity|]. split; [vm_compute; reflexivity|].
  vm_compute. discriminate.
Qed.

Lemma partial_disparities_exit_witness :
  cfg_two_bounds !! "pipeline" = Some (VDict pipeline_sad)
  ∧ cfg_two_bounds !! "input" = Some (VDict input_two_bounds)
  ∧ ("estimation" ∉ dom pipeline_sad)
  ∧ ("disp_min_row" ∈ disp_keys)
  ∧ input_two_bounds !! "disp_min_row" = None
  ∧ check_conf_sample cfg_two_bounds = ([LogError exclusivity_msg], SysExit 1).
Proof.
  assert (H1 : "estimation" ∉ dom pipeline_sad).
  { apply not_elem_of_dom. reflexivity. }
  assert (H2 : "disp_min_row" ∈ disp_keys).
  { unfold disp_keys. do 2 right. left. }
  do 2 (split; [reflexivity|]). do 2 (split; [assumption|]).
  split; [reflexivity|].
  exact (partial_disparities_exit open_all checks_pass checks_pass
           echo_machine false cfg_two_bounds pipeline_sad input_two_bounds
           "disp_min_row" eq_refl eq_refl H1 H2 eq_refl).
Defined.

(** The runs of the two section checkers on the samples. *)
Lemma pipeline_run_sad input :
  check_pipeline_section echo_machine false
    (get_config_pipeline (make_cfg input pipeline_sad))
  = ([MachineCheck (VDict pipeline_sad); Validate PipelineSchema (validated pipeline_sad)],
     Return (validated pipeline_sad)).
Proof. vm_compute. reflexivity. Qed.

Lemma pipeline_run_no_matching_cost input :
  check_pipeline_section echo_machine false
    (get_config_pipeline (make_cfg input pipeline_no_matching_cost))
  = ([MachineCheck (VDict pipeline_no_matching_cost);
      Validate PipelineSchema (validated pipeline_no_matching_cost)],
     Return (validated pipeline_no_matching_cost)).
Proof. vm_compute. reflexivity. Qed.

Lemma input_run_sample input pipeline :
  snd (check_input_section open_all checks_pass checks_pass false
         {[ "input" := VDict input ]} false) = Return (merged input) →
  check_input_section open_all checks_pass checks_pass false
    (get_config_input (make_cfg input pipeline)) false
  = (fst (check_input_section open_all checks_pass checks_pass false
            {[ "input" := VDict input ]} false),
     Return (merged input)).
Proof. intros H. by apply run_eta in H. Qed.

Lemma pipeline_run_sample (pipeline input : conf) :
  snd (check_pipeline_section echo_machine false (validated pipeline))
  = Return (validated pipeline) →
  check_pipeline_section echo_machine false
    (get_config_pipeline (make_cfg input pipeline))
  = (fst (check_pipeline_section echo_machine false (validated pipeline)),
     Return (validated pipeline)).
Proof. intros H. by apply run_eta in H. Qed.

(** Counterexample to C2. With the [sad] method and [nodata_right] set to
    the ordinary float [9999.0], the run does not reach the rule on
    [nodata_right]: the input schema rejects the value and the run raises
    the error of the schema checker, with no log and no exit. *)
Lemma float_nodata_raises_checker_error :
  pipeline_sad !! "matching_cost"
  = Some (VDict {[ "matching_cost_method" := VStr "sad" ]})
  ∧ input_float !! "nodata_right" = Some (VFloat float_9999)
  ∧ check_conf_sample cfg_float
    = ([MachineCheck (VDict pipeline_sad);
        Validate PipelineSchema (validated pipeline_sad);
        Validate InputSchema (merged input_float)],
       Raise CheckerError).
Proof. split; [reflexivity|]. split; [reflexivity|]. vm_compute. reflexivity. Qed.

Lemma nodata_right_rule_witness :
  cfg_nan !! "pipeline" = Some (VDict pipeline_sad)
  ∧ cfg_nan !! "input" = Some (VDict input_nan)
  ∧ xorb (has_estimation pipeline_sad) (has_all_disparities input_nan) = true
  ∧ input_nan !! "nodata_right" = Some (VFloat S754_nan)
  ∧ snd (check_conf_sample cfg_nan) = SysExit 1
  ∧ last (fst (check_conf_sample cfg_nan)) = Some (LogError nodata_msg)
  ∧ succeeded (check_conf_sample
                 (<["input" := VDict (<["nodata_right" := VInt 9999]> input_nan)]> cfg_nan))
    = true.
Proof.
  do 4 (split; [reflexivity|]).
  assert (His := input_run_sample input_nan pipeline_sad
                   ltac:(vm_compute; reflexivity)).
  destruct (nodata_right_rule open_all checks_pass checks_pass echo_machine false
              cfg_nan pipeline_sad input_nan _ _ pipeline_sad
              {[ "matching_cost_method" := VStr "sad" ]} "sad"
              eq_refl eq_refl eq_refl (pipeline_run_sad input_nan)
              eq_refl eq_refl eq_refl (or_introl eq_refl))
    as (_ & Hexit & _ & Hint).
  destruct (Hexit _ _ _ eq_refl His) as [_ Hrun].
  destruct (Hint 9999 _ _ His) as (t2' & cfg' & Hacc).
  unfold check_conf_sample. rewrite Hrun, Hacc. cbn [fst snd].
  split; [reflexivity|]. split; [|reflexivity].
  by rewrite app_assoc, last_snoc.
Defined.


Lemma update_conf_keeps_user_and_defaults_witness :
  lookup_path ["input"; "disp_min_col"] (VDict user_two_bounds) = Some (VInt (-2))
  ∧ lookup_path ["input"; "disp_min_col"]
      (VDict (update_conf default_short_configuration_input user_two_bounds))
    = Some (VInt (-2))
  ∧ lookup_path ["input"; "nodata_left"] (VDict default_short_configuration_input)
    = Some (VInt (-9999))
  ∧ omits ["input"; "nodata_left"] (VDict user_two_bounds) = true
  ∧ lookup_path ["input"; "nodata_left"]
      (VDict (update_conf default_short_configuration_input user_two_bounds))
    = Some (VInt (-9999))
  ∧ lookup_path ["input"; "disp_min_row"]
      (VDict (update_conf default_short_configuration_input user_two_bounds))
    = Some np_nan.
Proof.
  destruct (update_conf_keeps_user_and_defaults
              default_short_configuration_input user_two_bounds)
    as (_ & _ & _ & _ & Huser & _ & Hdef).
  split; [reflexivity|].
  split; [exact (Huser ["input"; "disp_min_col"] (VInt (-2)) eq_refl eq_refl)|].
  split; [reflexivity|]. split; [reflexivity|].
  split; [exact (Hdef ["input"; "nodata_left"] (VInt (-9999)) eq_refl eq_refl)|].
  exact (Hdef ["input"; "disp_min_row"] np_nan eq_refl eq_refl).
Defined.

Lemma update_conf_store_frame_witness :
  update_conf_store 5 0 2 sample_store = Some (4%nat, sample_store_merged)
  ∧ preserved sample_store sample_store_merged
  ∧ sample_store !! 4%nat = None
  ∧ separate sample_store sample_store_merged.
Proof.
  assert (Hrun : update_conf_store 5 0 2 sample_store
                 = Some (4%nat, sample_store_merged)).
  { vm_compute. reflexivity. }
  split; [exact Hrun|].
  destruct (update_conf_store_frame 5 0 2 sample_store _ _ Hrun)
    as (Hp & _ & Hr & _ & Hs).
  exact (conj Hp (conj Hr Hs)).
Defined.


(** Counterexample to C9. The state machine would reject every pipeline,
    and does so when the exclusivity rule holds (second run); yet on
    Scenario B the run ends by the exit of the exclusivity rule and the
    state machine has not been called: the exclusivity test comes before
    the validation of the pipeline section, not after the two sections. *)
Lemma exclusivity_checked_before_pipeline :
  reject_machine (VDict pipeline_estimation) = Raise (ForeignError "MachineError")
  ∧ check_conf open_all checks_pass checks_pass reject_machine false cfg_both
    = ([LogError exclusivity_msg], SysExit 1)
  ∧ check_conf open_all checks_pass checks_pass reject_machine false cfg_bounds
    = ([MachineCheck (VDict pipeline_sad)], Raise (ForeignError "MachineError")).
Proof. split; [reflexivity|]. split; vm_compute; reflexivity. Qed.

Lemma check_conf_order_witness :
  cfg_bounds !! "pipeline" = Some (VDict pipeline_sad)
  ∧ cfg_bounds !! "input" = Some (VDict input_disp)
  ∧ xorb (has_estimation pipeline_sad) (has_all_disparities input_disp) = true
  ∧ snd (check_conf_sample cfg_bounds)
    = Return (concat_conf [merged input_disp; validated pipeline_sad])
  ∧ ∃ cfg_pipeline cfg_input l r a b c d,
      fst (check_conf_sample cfg_bounds)
      = [MachineCheck (VDict pipeline_sad);
         Validate PipelineSchema cfg_pipeline;
         Validate InputSchema cfg_input;
         CheckImages l r; CheckDisparities a b; CheckDisparities c d]
      ∧ concat_conf [merged input_disp; validated pipeline_sad]
        = concat_conf [cfg_input; cfg_pipeline].
Proof.
  do 3 (split; [reflexivity|]).
  assert (H : snd (check_conf_sample cfg_bounds)
              = Return (concat_conf [merged input_disp; validated pipeline_sad]))
    by (vm_compute; reflexivity).
  split; [exact H|].
  destruct (check_conf_order open_all checks_pass checks_pass echo_machine false
              cfg_bounds pipeline_sad input_disp eq_refl eq_refl) as [_ Hgo].
  destruct (Hgo eq_refl) as (_ & _ & _ & Hret).
  exact (Hret _ _ (run_eta _ _ H)).
Defined.

(** Counterexample to C10. With [nodata_right] set to the ordinary float
    [9999.0] and a validated pipeline without a [matching_cost] step, the
    run does not reach the lookup of [matching_cost]: the input schema
    rejects the value and the run raises the error of the schema
    checker, not [KeyError]. *)
Lemma ordinary_float_raises_before_lookup :
  input_float !! "nodata_right" = Some (VFloat float_9999)
  ∧ check_pipeline_section echo_machine false
      (get_config_pipeline cfg_float_no_matching_cost)
    = ([MachineCheck (VDict pipeline_no_matching_cost);
        Validate PipelineSchema (validated pipeline_no_matching_cost)],
       Return (validated pipeline_no_matching_cost))
  ∧ pipeline_no_matching_cost !! "matching_cost" = None
  ∧ check_conf_sample cfg_float_no_matching_cost
    = ([MachineCheck (VDict pipeline_no_matching_cost);
        Validate PipelineSchema (validated pipeline_no_matching_cost);
        Validate InputSchema (merged input_float)],
       Raise CheckerError)
  ∧ snd (check_conf_sample cfg_float_no_matching_cost)
    ≠ Raise (KeyError "matching_cost").
Proof.
  split; [reflexivity|]. split; [vm_compute; reflexivity|].
  split; [reflexivity|]. split; [vm_compute; reflexivity|].
  vm_compute. discriminate.
Qed.

Lemma nodata_test_short_circuits_witness :
  cfg_nan_no_matching_cost !! "pipeline" = Some (VDict pipeline_no_matching_cost)
  ∧ cfg_nan_no_matching_cost !! "input" = Some (VDict input_nan)
  ∧ xorb (has_estimation pipeline_no_matching_cost) (has_all_disparities input_nan)
    = true
  ∧ pipeline_no_matching_cost !! "matching_cost" = None
  ∧ input_nan !! "nodata_right" = Some (VFloat S754_nan)
  ∧ snd (check_conf_sample cfg_nan_no_matching_cost) = Raise (KeyError "matching_cost")
  ∧ input_int !! "nodata_right" = Some (VInt 9999)
  ∧ snd (check_conf_sample (make_cfg input_int pipeline_no_matching_cost))
    = Return (concat_conf [merged input_int; validated pipeline_no_matching_cost])
  ∧ input_float !! "nodata_right" = Some (VFloat float_9999)
  ∧ snd (check_conf_sample cfg_float_no_matching_cost) = Raise CheckerError.
Proof.
  do 5 (split; [reflexivity|]).
  destruct (nodata_test_short_circuits open_all checks_pass checks_pass
              echo_machine false cfg_nan_no_matching_cost
              pipeline_no_matching_cost input_nan _ _
              eq_refl eq_refl eq_refl
              (pipeline_run_no_matching_cost input_nan)) as (_ & _ & Hkey).
  destruct (Hkey S754_nan _ _ pipeline_no_matching_cost eq_refl
              (input_run_sample input_nan pipeline_no_matching_cost
                 ltac:(vm_compute; reflexivity))
              eq_refl eq_refl) as [_ Hrun].
  destruct (nodata_test_short_circuits open_all checks_pass checks_pass
              echo_machine false (make_cfg input_int pipeline_no_matching_cost)
              pipeline_no_matching_cost input_int _ _
              eq_refl eq_refl eq_refl
              (pipeline_run_no_matching_cost input_int)) as (Hpass & _ & _).
  destruct (nodata_test_short_circuits open_all checks_pass checks_pass
              echo_machine false cfg_float_no_matching_cost
              pipeline_no_matching_cost input_float _ _
              eq_refl eq_refl eq_refl
              (pipeline_run_no_matching_cost input_float)) as (_ & Hschema & _).
  unfold check_conf_sample.
  rewrite Hrun.
  rewrite (Hpass 9999 _ _ eq_refl
             (input_run_sample input_int pipeline_no_matching_cost
                ltac:(vm_compute; reflexivity))).
  rewrite (Hschema float_9999 eq_refl ltac:(discriminate) ltac:(discriminate)).
  split; [reflexivity|]. split; [reflexivity|]. split; [reflexivity|].
  split; reflexivity.
Defined.

(** * The further properties on sample configurations *)

Lemma run_eta_sample (cfg result : conf) :
  snd (check_conf_sample cfg) = Return result →
  check_conf open_all checks_pass checks_pass echo_machine false cfg
  = (fst (check_conf_sample cfg), Return result).
Proof. apply run_eta. Qed.

Lemma check_conf_reads_two_sections_witness :
  cfg_bounds_output !! "pipeline" = cfg_bounds !! "pipeline"
  ∧ cfg_bounds_output !! "input" = cfg_bounds !! "input"
  ∧ cfg_bounds_output !! "output" ≠ cfg_bounds !! "output"
  ∧ check_conf_sample cfg_bounds_output = check_conf_sample cfg_bounds.
Proof.
  split; [reflexivity|]. split; [reflexivity|]. split; [discriminate|].
  exact (check_conf_reads_two_sections open_all checks_pass checks_pass
           echo_machine false cfg_bounds_output cfg_bounds eq_refl eq_refl).
Defined.

Lemma accepted_bounds_witness :
  cfg_bounds !! "pipeline" = Some (VDict pipeline_sad)
  ∧ succeeded (check_conf_sample cfg_bounds) = true
  ∧ ∃ i, cfg_bounds !! "input" = Some (VDict i)
         ∧ ∀ k, k ∈ disp_keys → ∃ z, i !! k = Some (VInt z).
Proof.
  split; [reflexivity|]. split; [vm_compute; reflexivity|].
  exact (accepted_bounds open_all checks_pass checks_pass echo_machine false
           cfg_bounds pipeline_sad _ _ eq_refl
           (run_eta_sample cfg_bounds
              (concat_conf [merged input_disp; validated pipeline_sad])
              ltac:(vm_compute; reflexivity))).
Defined.

Lemma check_conf_result_witness :
  cfg_bounds_output !! "pipeline" = Some (VDict pipeline_sad)
  ∧ succeeded (check_conf_sample cfg_bounds_output) = true
  ∧ ∃ cfg i pipeline_cfg pl,
      snd (check_conf_sample cfg_bounds_output) = Return cfg
      ∧ cfg_bounds_output !! "input" = Some (VDict i)
      ∧ echo_machine (VDict pipeline_sad) = Return pipeline_cfg
      ∧ cfg !! "pipeline" = Some (VDict pl) ∧ dom pipeline_sad ⊆ dom pl
      ∧ cfg !! "input"
        = Some (default (VDict (i ∪ default_input)) (pipeline_cfg !! "input"))
      ∧ ∀ k, k ≠ "input" → k ≠ "pipeline" → cfg !! k = pipeline_cfg !! k.
Proof.
  split; [reflexivity|]. split; [vm_compute; reflexivity|].
  assert (H : snd (check_conf_sample cfg_bounds_output)
              = Return (concat_conf [merged input_disp; validated pipeline_sad]))
    by (vm_compute; reflexivity).
  destruct (check_conf_result open_all checks_pass checks_pass echo_machine false
              cfg_bounds_output pipeline_sad _ _ eq_refl
              (run_eta_sample _ _ H)) as (i & pc & pl & Hres).
  exists (concat_conf [merged input_disp; validated pipeline_sad]), i, pc, pl.
  exact (conj H Hres).
Defined.

Lemma estimation_result_rejected_witness :
  cfg_estimation !! "pipeline" = Some (VDict pipeline_estimation)
  ∧ has_estimation pipeline_estimation = true
  ∧ echo_machine (VDict pipeline_estimation) = Return (validated pipeline_estimation)
  ∧ validated pipeline_estimation !! "input" = None
  ∧ snd (check_conf_sample cfg_estimation)
    = Return (concat_conf [merged input_images; validated pipeline_estimation])
  ∧ check_conf_sample (concat_conf [merged input_images; validated pipeline_estimation])
    = ([LogError exclusivity_msg], SysExit 1).
Proof.
  do 4 (split; [reflexivity|]).
  assert (H : snd (check_conf_sample cfg_estimation)
              = Return (concat_conf [merged input_images;
                                     validated pipeline_estimation]))
    by (vm_compute; reflexivity).
  split; [exact H|].
  exact (estimation_result_rejected open_all checks_pass checks_pass echo_machine
           false cfg_estimation pipeline_estimation _ _ _
           eq_refl eq_refl eq_refl eq_refl (run_eta_sample _ _ H)).
Defined.

Lemma check_pipeline_section_result_witness :
  validated pipeline_sad !! "pipeline" = Some (VDict pipeline_sad)
  ∧ check_pipeline_section echo_machine false (validated pipeline_sad)
    = ([MachineCheck (VDict pipeline_sad);
        Validate PipelineSchema (validated pipeline_sad)],
       Return (validated pipeline_sad))
  ∧ ∃ pl, validated pipeline_sad !! "pipeline" = Some (VDict pl)
          ∧ dom pipeline_sad ⊆ dom pl.
Proof.
  split; [reflexivity|]. split; [exact (pipeline_run_sad input_disp)|].
  destruct (check_pipeline_section_result echo_machine false
              (validated pipeline_sad) pipeline_sad _ _ eq_refl
              (pipeline_run_sad input_disp))
    as (pc & pl & _ & _ & _ & Hpl & Hdom & _).
  exists pl. exact (conj Hpl Hdom).
Defined.

Lemma check_pipeline_section_failures_witness :
  check_pipeline_section reject_machine false ∅ = ([], Raise (KeyError "pipeline"))
  ∧ check_pipeline_section reject_machine false (validated pipeline_sad)
    = ([MachineCheck (VDict pipeline_sad)], Raise (ForeignError "MachineError"))
  ∧ check_pipeline_section (λ _, Return {[ "pipeline" := VStr "sad" ]}) false
      (validated pipeline_sad)
    = ([MachineCheck (VDict pipeline_sad);
        Validate PipelineSchema
          (update_conf (validated pipeline_sad) {[ "pipeline" := VStr "sad" ]})],
       Raise CheckerError).
Proof.
  destruct (check_pipeline_section_failures reject_machine false ∅)
    as (Hkey & _ & _).
  destruct (check_pipeline_section_failures reject_machine false
              (validated pipeline_sad)) as (_ & Hfail & _).
  destruct (check_pipeline_section_failures
              (λ _, Return {[ "pipeline" := VStr "sad" ]}) false
              (validated pipeline_sad)) as (_ & _ & Hschema).
  split; [exact (Hkey eq_refl)|]. split.
  - exact (Hfail (VDict pipeline_sad) _ _ eq_refl eq_refl
             (same_raise (ForeignError "MachineError"))).
  - exact (Hschema (VDict pipeline_sad) _ (VStr "sad") eq_refl eq_refl eq_refl
             eq_refl).
Defined.

Lemma nodata_rule_methods_witness :
  cfg_nan_zncc !! "pipeline" = Some (VDict pipeline_zncc)
  ∧ cfg_nan_zncc !! "input" = Some (VDict input_nan)
  ∧ xorb (has_estimation pipeline_zncc) (has_all_disparities input_nan) = true
  ∧ input_nan !! "nodata_right" = Some (VFloat S754_nan)
  ∧ pipeline_zncc !! "matching_cost"
    = Some (VDict {[ "matching_cost_method" := VStr "zncc" ]})
  ∧ snd (check_conf_sample cfg_nan_zncc)
    = Return (concat_conf [merged input_nan; validated pipeline_zncc]).
Proof.
  do 5 (split; [reflexivity|]).
  destruct (nodata_rule_methods open_all checks_pass checks_pass echo_machine
              false cfg_nan_zncc pipeline_zncc input_nan _ _ _ _ pipeline_zncc
              {[ "matching_cost_method" := VStr "zncc" ]} S754_nan (VStr "zncc")
              eq_refl eq_refl eq_refl
              (pipeline_run_sample pipeline_zncc input_nan
                 ltac:(vm_compute; reflexivity))
              (input_run_sample input_nan pipeline_zncc
                 ltac:(vm_compute; reflexivity))
              eq_refl eq_refl eq_refl eq_refl) as [_ Hother].
  unfold check_conf_sample.
  rewrite (Hother ltac:(discriminate) ltac:(discriminate)). reflexivity.
Defined.

Lemma nodata_rule_lookup_errors_witness :
  cfg_nan_no_method !! "pipeline" = Some (VDict pipeline_no_method)
  ∧ cfg_nan_no_method !! "input" = Some (VDict input_nan)
  ∧ xorb (has_estimation pipeline_no_method) (has_all_disparities input_nan) = true
  ∧ input_nan !! "nodata_right" = Some (VFloat S754_nan)
  ∧ pipeline_no_method !! "matching_cost" = Some (VDict {[ "window_size" := VInt 5 ]})
  ∧ snd (check_conf_sample cfg_nan_no_method)
    = Raise (KeyError "matching_cost_method").
Proof.
  do 5 (split; [reflexivity|]).
  destruct (nodata_rule_lookup_errors open_all checks_pass checks_pass
              echo_machine false cfg_nan_no_method pipeline_no_method input_nan
              _ _ _ _ pipeline_no_method S754_nan
              eq_refl eq_refl eq_refl
              (pipeline_run_sample pipeline_no_method input_nan
                 ltac:(vm_compute; reflexivity))
              (input_run_sample input_nan pipeline_no_method
                 ltac:(vm_compute; reflexivity))
              eq_refl eq_refl) as [Hkey _].
  unfold check_conf_sample.
  rewrite (Hkey {[ "window_size" := VInt 5 ]} eq_refl eq_refl). reflexivity.
Defined.

Lemma check_conf_first_event_witness :
  check_conf_sample cfg_number = ([], Raise TypeError)
  ∧ ∃ pv, cfg_number !! "pipeline" = Some pv
          ∧ (is_number pv = true
             ∨ ∃ iv, cfg_number !! "input" = Some iv ∧ is_number iv = true).
Proof.
  assert (H : check_conf_sample cfg_number = ([], Raise TypeError))
    by (vm_compute; reflexivity).
  split; [exact H|].
  destruct (check_conf_first_event open_all checks_pass checks_pass echo_machine
              false cfg_number _ _ H) as [[_ Hr]|[(_ & _ & Hr)|(pv & Hp & Hn & _)]].
  - discriminate Hr.
  - discriminate Hr.
  - exists pv. exact (conj Hp Hn).
Defined.

Lemma fields_disp_valid :
  has_fields (input_disp ∪ default_input) fields_disp
  ∧ valid_fields open_all false fields_disp.
Proof.
  split; [by repeat split|].
  repeat split; try (by eexists); left; by eexists.
Qed.

Lemma check_input_section_accepts_witness :
  check_input_section open_all checks_pass checks_pass false
    {[ "input" := VDict input_disp ]} false
  = (input_events InputSchema {[ "input" := VDict (input_disp ∪ default_input) ]}
       fields_disp,
     Return {[ "input" := VDict (input_disp ∪ default_input) ]}).
Proof.
  apply (check_input_section_accepts open_all checks_pass checks_pass false).
  exists fields_disp.
  split; [exact (proj1 fields_disp_valid)|].
  split; [exact (proj2 fields_disp_valid)|].
  assert (Hd : bool_decide (dom input_disp ⊆ input_keys) = true)
    by (vm_compute; reflexivity).
  split; [right; exact (bool_decide_eq_true_1 _ Hd)|].
  by repeat split.
Defined.

Lemma images_are_mandatory_witness :
  input_left_only !! "img_left" = Some (VStr "left.tif")
  ∧ input_left_only !! "img_right" = None
  ∧ snd (check_input_section open_all checks_pass checks_pass false
           {[ "input" := VDict input_left_only ]} true)
    = Raise CheckerError
  ∧ snd (check_input_section open_all checks_pass checks_pass false ∅ false)
    = Raise CheckerError.
Proof.
  do 2 (split; [reflexivity|]).
  destruct (images_are_mandatory open_all checks_pass checks_pass false true)
    as [Hmiss _].
  destruct (images_are_mandatory open_all checks_pass checks_pass false false)
    as [_ Hnone].
  rewrite (Hmiss input_left_only "img_right" (or_intror eq_refl) eq_refl), Hnone.
  split; reflexivity.
Defined.

Lemma check_input_section_idempotent_witness :
  snd (check_input_section open_all checks_pass checks_pass false
         {[ "input" := VDict input_disp ]} false) = Return (merged input_disp)
  ∧ check_input_section open_all checks_pass checks_pass false
      (merged input_disp) false
    = check_input_section open_all checks_pass checks_pass false
        {[ "input" := VDict input_disp ]} false.
Proof.
  assert (H : snd (check_input_section open_all checks_pass checks_pass false
                     {[ "input" := VDict input_disp ]} false)
              = Return (merged input_disp)) by (vm_compute; reflexivity).
  split; [exact H|].
  destruct (check_input_section_idempotent open_all checks_pass checks_pass false
              {[ "input" := VDict input_disp ]} false) as [_ Hidem].
  rewrite (run_eta _ _ H). exact (Hidem _ _ (run_eta _ _ H)).
Defined.

Lemma nodata_left_is_free_witness :
  cfg_bounds !! "pipeline" = Some (VDict pipeline_sad)
  ∧ cfg_bounds !! "input" = Some (VDict input_disp)
  ∧ succeeded (check_conf_sample cfg_bounds) = true
  ∧ nodata_ok np_nan
  ∧ succeeded (check_conf_sample
                 (<["input" := VDict (<["nodata_left" := np_nan]> input_disp)]>
                    cfg_bounds))
    = true.
Proof.
  assert (Hok : nodata_ok np_nan) by (right; by left).
  do 2 (split; [reflexivity|]). split; [vm_compute; reflexivity|].
  split; [exact Hok|].
  destruct (nodata_left_is_free open_all checks_pass checks_pass echo_machine
              false cfg_bounds pipeline_sad input_disp _ _ np_nan
              eq_refl eq_refl
              (run_eta_sample cfg_bounds
                 (concat_conf [merged input_disp; validated pipeline_sad])
                 ltac:(vm_compute; reflexivity))
              Hok) as (t' & cfg' & Hrun).
  unfold check_conf_sample. rewrite Hrun. reflexivity.
Defined.

Lemma explicit_nodata_default_witness :
  cfg_bounds !! "input" = Some (VDict input_disp)
  ∧ input_disp !! "nodata_left" = None
  ∧ check_conf_sample
      (<["input" := VDict (<["nodata_left" := VInt (-9999)]> input_disp)]> cfg_bounds)
    = check_conf_sample cfg_bounds.
Proof.
  do 2 (split; [reflexivity|]).
  exact (explicit_nodata_default open_all checks_pass checks_pass echo_machine
           false cfg_bounds input_disp "nodata_left" eq_refl
           (or_introl eq_refl) eq_refl).
Defined.

Lemma default_nodata_right_passes_witness :
  cfg_bounds !! "pipeline" = Some (VDict pipeline_sad)
  ∧ cfg_bounds !! "input" = Some (VDict input_disp)
  ∧ xorb (has_estimation pipeline_sad) (has_all_disparities input_disp) = true
  ∧ input_disp !! "nodata_right" = None
  ∧ snd (check_conf_sample cfg_bounds)
    = Return (concat_conf [merged input_disp; validated pipeline_sad])
  ∧ ∃ inp, merged input_disp !! "input" = Some (VDict inp)
           ∧ inp !! "nodata_right" = Some (VInt (-9999)).
Proof.
  do 4 (split; [reflexivity|]).
  destruct (default_nodata_right_passes open_all checks_pass checks_pass
              echo_machine false cfg_bounds pipeline_sad input_disp _ _ _ _
              eq_refl eq_refl eq_refl (pipeline_run_sad input_disp)
              (input_run_sample input_disp pipeline_sad
                 ltac:(vm_compute; reflexivity))
              eq_refl) as [Hrun Hnd].
  unfold check_conf_sample. rewrite Hrun. exact (conj eq_refl Hnd).
Defined.


Lemma check_conf_postcondition_witness :
  cfg_nan_zncc !! "pipeline" = Some (VDict pipeline_zncc)
  ∧ echo_machine (VDict pipeline_zncc) = Return (validated pipeline_zncc)
  ∧ validated pipeline_zncc !! "input" = None
  ∧ snd (check_conf_sample cfg_nan_zncc)
    = Return (concat_conf [merged input_nan; validated pipeline_zncc])
  ∧ ∃ (inp pl : conf) f,
      concat_conf [merged input_nan; validated pipeline_zncc] !! "input"
      = Some (VDict inp)
      ∧ has_fields inp f
      ∧ valid_fields open_all (has_estimation pipeline_zncc) f
      ∧ concat_conf [merged input_nan; validated pipeline_zncc] !! "pipeline"
        = Some (VDict pl)
      ∧ (isinstance_float (f_nodata_right f) = true →
           ∃ (mc : conf) method,
             pl !! "matching_cost" = Some (VDict mc)
             ∧ mc !! "matching_cost_method" = Some method
             ∧ method ≠ VStr "sad" ∧ method ≠ VStr "ssd").
Proof.
  do 3 (split; [reflexivity|]).
  assert (H : snd (check_conf_sample cfg_nan_zncc)
              = Return (concat_conf [merged input_nan; validated pipeline_zncc]))
    by (vm_compute; reflexivity).
  split; [exact H|].
  exact (check_conf_postcondition open_all checks_pass checks_pass echo_machine
           false cfg_nan_zncc pipeline_zncc _ _ _ eq_refl eq_refl eq_refl
           (run_eta_sample _ _ H)).
Defined.
